(** * Composite matching engine of filament (core/search/specificity_search.py)

    Shallow embedding of [CompositeMatcher]: the candidate query and the age
    filter of [_match_chunk], the corpus statistics of [load_stats], the
    scoring functions, the chunking of [find_leads] and its parallel and
    sequential paths. *)

From Stdlib Require Import Ascii String ZArith QArith Qreals Reals Lra Lia Sorted.
From stdpp Require Import base list gmap strings.

#[local] Set Warnings "-abstract-large-number".
Open Scope string_scope.

(* ------------------------------------------------------------------ *)
(** ** SQLite three-valued logic *)

Inductive sqlbool := STrue | SFalse | SNull.

Definition sql_and (a b : sqlbool) : sqlbool :=
  match a, b with
  | SFalse, _ | _, SFalse => SFalse
  | STrue, STrue => STrue
  | _, _ => SNull
  end.

Definition sql_or (a b : sqlbool) : sqlbool :=
  match a, b with
  | STrue, _ | _, STrue => STrue
  | SFalse, SFalse => SFalse
  | _, _ => SNull
  end.

Definition sql_of_bool (b : bool) : sqlbool := if b then STrue else SFalse.

(** [x IS NULL] *)
Definition sql_is_null {A} (x : option A) : sqlbool :=
  match x with None => STrue | Some _ => SFalse end.

(** TEXT comparison under SQLite's BINARY collation: byte-wise, a proper
    prefix sorts first. *)
Fixpoint text_cmp (a b : string) : comparison :=
  match a, b with
  | EmptyString, EmptyString => Eq
  | EmptyString, String _ _ => Lt
  | String _ _, EmptyString => Gt
  | String x a', String y b' =>
      match Nat.compare (nat_of_ascii x) (nat_of_ascii y) with
      | Eq => text_cmp a' b'
      | c => c
      end
  end.

(** [x <= ?] on a TEXT column. *)
Definition sql_text_le (x : option string) (p : string) : sqlbool :=
  match x with
  | None => SNull
  | Some s => sql_of_bool (match text_cmp s p with Gt => false | _ => true end)
  end.

(** [x BETWEEN lo AND hi] on a REAL column. *)
Definition sql_between (x : option Q) (lo hi : Q) : sqlbool :=
  match x with
  | None => SNull
  | Some v => sql_of_bool (Qle_bool lo v && Qle_bool v hi)
  end.

(** [x IN (a, b, ...)] on a TEXT column whose list holds no NULL. *)
Definition sql_in (x : option string) (l : list string) : sqlbool :=
  match x with
  | None => SNull
  | Some s => sql_of_bool (existsb (String.eqb s) l)
  end.

(* ------------------------------------------------------------------ *)
(** ** Python truthiness of the values read from the database *)

Definition truthy_str (o : option string) : bool :=
  match o with Some s => negb (String.eqb s "") | None => false end.

Definition truthy_Z (o : option Z) : bool :=
  match o with Some z => negb (Z.eqb z 0) | None => false end.

(* ------------------------------------------------------------------ *)
(** ** Records (columns of unidentified_cases and missing_persons) *)

Record uhr_row := mk_uhr_row {
  case_number : string;
  estimated_sex : option string;
  estimated_age_min : option Z;
  estimated_age_max : option Z;
  discovery_date : option string;
  u_description : option string;
  discovery_lat : option Q;
  discovery_lon : option Q;
  u_race : option string;
  u_dna_status : option string;
  u_dental_status : option string
}.

Record mp_row := mk_mp_row {
  file_number : string;
  mp_name : option string;
  age_at_disappearance : option Z;
  last_seen_date : option string;
  m_description : option string;
  last_seen_lat : option Q;
  last_seen_lon : option Q;
  m_sex : option string;
  m_race : option string;
  m_dna_status : option string;
  m_dental_status : option string
}.

(* ------------------------------------------------------------------ *)
(** ** The candidate query of [_match_chunk] *)

(** [u_date_limit = u["u_date"] if u["u_date"] else '9999-12-31'] *)
Definition u_date_limit (u_date : option string) : string :=
  match u_date with
  | Some s => if truthy_str u_date then s else "9999-12-31"
  | None => "9999-12-31"
  end.

(** [(last_seen_date IS NULL OR last_seen_date <= ?)] *)
Definition timeline_cond (u : uhr_row) (m : mp_row) : sqlbool :=
  sql_or (sql_is_null (last_seen_date m))
         (sql_text_le (last_seen_date m) (u_date_limit (discovery_date u))).

(** [AND (sex IS NULL OR sex IN ('Unknown', 'Uncertain', ?))], added when
    [u["u_sex"] and u["u_sex"] not in ('Uncertain', 'Unknown')]. *)
Definition sex_cond (u : uhr_row) (m : mp_row) : sqlbool :=
  match estimated_sex u with
  | Some s =>
      if truthy_str (Some s) && negb (existsb (String.eqb s) ["Uncertain"; "Unknown"])
      then sql_or (sql_is_null (m_sex m)) (sql_in (m_sex m) ["Unknown"; "Uncertain"; s])
      else STrue
  | None => STrue
  end.

(** [AND (last_seen_lat IS NULL OR (last_seen_lat BETWEEN ? AND ? AND
    last_seen_lon BETWEEN ? AND ?))] with [u_lat -/+ 8] and [u_lon -/+ 8],
    added when both discovery coordinates are not None. *)
Definition geo_cond (u : uhr_row) (m : mp_row) : sqlbool :=
  match discovery_lat u, discovery_lon u with
  | Some la, Some lo =>
      sql_or (sql_is_null (last_seen_lat m))
        (sql_and (sql_between (last_seen_lat m) (la - 8) (la + 8))
                 (sql_between (last_seen_lon m) (lo - 8) (lo + 8)))
  | _, _ => STrue
  end.

Definition where_clause (u : uhr_row) (m : mp_row) : sqlbool :=
  sql_and (sql_and (timeline_cond u m) (sex_cond u m)) (geo_cond u m).

(** A row is returned by the query when its WHERE clause is TRUE. *)
Definition selected (u : uhr_row) (m : mp_row) : bool :=
  match where_clause u m with STrue => true | _ => false end.

Definition candidate_query (u : uhr_row) (missing_persons : list mp_row) : list mp_row :=
  List.filter (fun m => selected u m) missing_persons.

(** [if u["u_age_min"] and m_age and (m_age < u["u_age_min"] - 10 or
    (u["u_age_max"] and m_age > u["u_age_max"] + 10)): continue] *)
Definition age_excluded (u_age_min u_age_max m_age : option Z) : bool :=
  match u_age_min, m_age with
  | Some amin, Some a =>
      truthy_Z u_age_min && truthy_Z m_age &&
      ((a <? amin - 10)%Z ||
       (truthy_Z u_age_max &&
        match u_age_max with Some amax => (a >? amax + 10)%Z | None => false end))
  | _, _ => false
  end.

Definition age_ok (u : uhr_row) (m : mp_row) : bool :=
  negb (age_excluded (estimated_age_min u) (estimated_age_max u) (age_at_disappearance m)).

(** The rows that reach scoring for one unidentified record. *)
Definition candidates (u : uhr_row) (missing_persons : list mp_row) : list mp_row :=
  List.filter (fun m => age_ok u m) (candidate_query u missing_persons).

(* ------------------------------------------------------------------ *)
(** ** Stored date text

    The loaders copy NamUs' [dateFound] and sighting [date] unchanged into
    the TEXT columns [discovery_date] and [last_seen_date]; they are ISO
    dates [YYYY-MM-DD], possibly followed by a time part ([T...]). *)

Definition digit (k : nat) : ascii := ascii_of_nat (48 + k).

Definition pad2 (n : nat) : string :=
  String (digit (n / 10 mod 10)) (String (digit (n mod 10)) EmptyString).

Definition pad4 (n : nat) : string :=
  String (digit (n / 10 / 10 / 10 mod 10))
    (String (digit (n / 10 / 10 mod 10))
       (String (digit (n / 10 mod 10)) (String (digit (n mod 10)) EmptyString))).

Definition iso_date (y m d : nat) : string :=
  String.append (pad4 y) (String.append "-" (String.append (pad2 m) (String.append "-" (pad2 d)))).

(** Chronological order of calendar dates (year, month, day). *)
Definition date_cmp (a b : nat * nat * nat) : comparison :=
  let '(y1, m1, d1) := a in
  let '(y2, m2, d2) := b in
  match Nat.compare y1 y2 with
  | Eq => match Nat.compare m1 m2 with Eq => Nat.compare d1 d2 | c => c end
  | c => c
  end.

Definition date_fields_ok (a : nat * nat * nat) : Prop :=
  let '(y, m, d) := a in y < 10 * 10 * 10 * 10 /\ m < 10 * 10 /\ d < 10 * 10.

Definition valid_date (a : nat * nat * nat) : Prop :=
  let '(y, m, d) := a in y < 10 * 10 * 10 * 10 /\ 1 <= m <= 12 /\ 1 <= d <= 31.

Definition date_text (a : nat * nat * nat) (suffix : string) : string :=
  let '(y, m, d) := a in String.append (iso_date y m d) suffix.

(* ------------------------------------------------------------------ *)
(** ** Tokenisation: [_get_words]

    [WORD_PATTERN = re.compile(r'\w+')] over ASCII text: a word character
    is a letter, a digit or [_]; [str.lower] maps A-Z to a-z. The model
    covers ASCII text only: on other characters Python's Unicode [\w],
    [str.lower] and [str.isdigit] are not modelled. *)

Definition is_word_char (c : ascii) : bool :=
  let n := nat_of_ascii c in
  ((Nat.leb 48 n) && (Nat.leb n 57)) || ((Nat.leb 65 n) && (Nat.leb n 90)) ||
  ((Nat.leb 97 n) && (Nat.leb n 122)) || (Nat.eqb n 95).

Definition is_digit_char (c : ascii) : bool :=
  let n := nat_of_ascii c in (Nat.leb 48 n) && (Nat.leb n 57).

Definition lower_char (c : ascii) : ascii :=
  let n := nat_of_ascii c in
  if (Nat.leb 65 n) && (Nat.leb n 90) then ascii_of_nat (n + 32) else c.

Fixpoint lower (s : string) : string :=
  match s with
  | EmptyString => EmptyString
  | String c s' => String (lower_char c) (lower s')
  end.

(** The pending word [cur] is kept reversed. *)
Definition flush (cur : list ascii) (rest : list string) : list string :=
  match cur with
  | [] => rest
  | _ => string_of_list_ascii (rev cur) :: rest
  end.

(** [WORD_PATTERN.findall(s)]: the maximal runs of word characters. *)
Fixpoint findall_words (s : string) (cur : list ascii) : list string :=
  match s with
  | EmptyString => flush cur []
  | String c s' =>
      if is_word_char c then findall_words s' (c :: cur)
      else flush cur (findall_words s' [])
  end.

(** [str.isdigit]: non-empty and only digits. *)
Definition isdigit (w : string) : bool :=
  match w with
  | EmptyString => false
  | _ => forallb is_digit_char (list_ascii_of_string w)
  end.

(** [_get_words]: the Python [set] is a duplicate-free list. *)
Definition get_words (text : option string) : list string :=
  match text with
  | Some t =>
      if truthy_str text then
        List.filter (fun w => (Nat.ltb 2 (String.length w)) && negb (isdigit w))
          (remove_dups (findall_words (lower t) []))
      else []
  | None => []
  end.

Definition stop_words : list string :=
  [ "the"; "and"; "was"; "with"; "found"; "on"; "in"; "at"; "of"; "for"; "to"; "is"; "has";
    "unknown"; "unsure"; "uncertain"; "years"; "old"; "male"; "female"; "white"; "black";
    "caucasian"; "american"; "african"; "hispanic"; "asian"; "native"; "race"; "sex";
    "estimated"; "approximately"; "approx"; "about"; "inches"; "pounds"; "cm"; "kg"; "lbs";
    "body"; "description"; "subject"; "case"; "number"; "discovery"; "location"; "found";
    "sighting"; "last"; "seen"; "contact"; "date"; "remains"; "charred"; "skeletonized";
    "burned"; "discovered"; "debris"; "underneath"; "after"; "before"; "around"; "above";
    "below"; "where"; "which"; "there"; "their"; "them"; "they"; "this"; "that"; "from";
    "into"; "been"; "were"; "also"; "some"; "many"; "very"; "small"; "large"; "water";
    "side"; "both"; "between"; "area"; "name"; "time"; "well"; "worn"; "long"; "size";
    "brand"; "color"; "black"; "white"; "blue"; "red"; "green"; "yellow"; "brown"; "gray" ].

Definition is_stop (w : string) : bool := existsb (String.eqb w) stop_words.

(** [words - self.stop_words] *)
Definition minus_stop (ws : list string) : list string :=
  List.filter (fun w => negb (is_stop w)) ws.

(* ------------------------------------------------------------------ *)
(** ** Matcher state and corpus statistics: [load_stats] *)

Record matcher := mk_matcher {
  idf_cache : gmap string R;
  uhr_total : nat;
  mp_total : nat;
  uhr_df : gmap string nat;
  mp_df : gmap string nat
}.

(** [CompositeMatcher.__init__] *)
Definition init_matcher : matcher := mk_matcher ∅ 0 0 ∅ ∅.

Record database := mk_database {
  unidentified_cases : list uhr_row;
  missing_persons : list mp_row
}.

(** [Counter.get(word, 0)] *)
Definition df_get (df : gmap string nat) (w : string) : nat := default 0 (df !! w).

(** [df[word] += 1] *)
Definition df_incr (df : gmap string nat) (w : string) : gmap string nat :=
  <[w := S (df_get df w)]> df.

(** One row of [load_stats]: [if row[0]: total += 1; for word in
    self._get_words(row[0]) - self.stop_words: df[word] += 1]. *)
Definition count_doc (acc : nat * gmap string nat) (desc : option string)
  : nat * gmap string nat :=
  let '(total, df) := acc in
  if truthy_str desc then (S total, foldl df_incr df (minus_stop (get_words desc)))
  else (total, df).

Definition count_docs (acc : nat * gmap string nat) (descs : list (option string))
  : nat * gmap string nat :=
  foldl count_doc acc descs.

Definition load_stats (self : matcher) (db : database) : matcher :=
  let '(ut, udf) := count_docs (uhr_total self, uhr_df self)
                      (map u_description (unidentified_cases db)) in
  let '(mt, mdf) := count_docs (mp_total self, mp_df self)
                      (map m_description (missing_persons db)) in
  mk_matcher (idf_cache self) ut mt udf mdf.

(* ------------------------------------------------------------------ *)
(** ** Specificity and the IDF cache *)

Definition log10 (x : R) : R := (ln x / ln 10)%R.

(** [calculate_specificity]; [None] is the [ValueError] that [math.log10]
    raises on [0.0] (a count without any document). *)
Definition calculate_specificity (word : string) (df : gmap string nat) (total_docs : nat)
  : option R :=
  if is_stop word then Some 0%R
  else
    let count := df_get df word in
    if Nat.leb count 0 then Some 2.5%R
    else if Nat.eqb total_docs 0 then None
    else Some (log10 (INR total_docs / INR count)).

(** [if word not in self.idf_cache: self.idf_cache[word] = (spec1 + spec2) / 2];
    then [self.idf_cache[word]]. *)
Definition idf_lookup (w : string) (self : matcher) : option (R * matcher) :=
  match idf_cache self !! w with
  | Some v => Some (v, self)
  | None =>
      match calculate_specificity w (uhr_df self) (uhr_total self) with
      | None => None
      | Some spec1 =>
          match calculate_specificity w (mp_df self) (mp_total self) with
          | None => None
          | Some spec2 =>
              let v := ((spec1 + spec2) / 2)%R in
              Some (v, mk_matcher (<[w := v]> (idf_cache self)) (uhr_total self)
                                  (mp_total self) (uhr_df self) (mp_df self))
          end
      end
  end.

(** The [for word in common] loop of [score_text_overlap]. *)
Fixpoint overlap_loop (common : list string) (total : R) (feats : list string)
  (self : matcher) : option (R * list string * matcher) :=
  match common with
  | [] => Some (total, feats, self)
  | w :: ws =>
      match idf_lookup w self with
      | None => None
      | Some (specificity, self') =>
          let feats' :=
            if Rlt_dec 2.2 specificity then app feats [String.append w " (Rare)"]
            else if Rlt_dec 1.5 specificity then app feats [w]
            else feats in
          overlap_loop ws (total + specificity)%R feats' self'
      end
  end.

(** [score_text_overlap]; [common = words1 & words2], iterated in the order
    of [words1] ([score_text_overlap_ord] below takes the order of the
    process). *)
Definition score_text_overlap (words1 words2 : list string) (self : matcher)
  : option ((R * list string) * matcher) :=
  let common := List.filter (fun w => bool_decide (w ∈ words2)) words1 in
  match common with
  | [] => Some ((0%R, []), self)
  | _ =>
      match overlap_loop common 0%R [] self with
      | None => None
      | Some (total_score, matched_features, self') =>
          Some ((Rmin 1 (total_score / 35), matched_features), self')
      end
  end.

(* ------------------------------------------------------------------ *)
(** ** Geographic, phenotypic and biological factors *)

Definition radians (x : R) : R := (x * PI / 180)%R.

(** [math.atan2] *)
Definition atan2 (y x : R) : R :=
  if Rlt_dec 0 x then atan (y / x)
  else if Rlt_dec x 0 then
    (if Rle_dec 0 y then atan (y / x) + PI else atan (y / x) - PI)%R
  else if Rlt_dec 0 y then (PI / 2)%R
  else if Rlt_dec y 0 then (- (PI / 2))%R
  else 0%R.

(** [haversine_distance] (geo_utils.py), in miles. [a] lies in [0, 1], so
    [math.sqrt(1 - a)] never sees a negative argument on the reals. *)
Definition haversine_distance (lat1 lon1 lat2 lon2 : option Q) : option R :=
  match lat1, lon1, lat2, lon2 with
  | Some la1, Some lo1, Some la2, Some lo2 =>
      let R_earth := 3958.8%R in
      let phi1 := radians (Q2R la1) in
      let phi2 := radians (Q2R la2) in
      let dphi := radians (Q2R (la2 - la1)) in
      let dlambda := radians (Q2R (lo2 - lo1)) in
      let a := (sin (dphi / 2) ^ 2 + cos phi1 * cos phi2 * sin (dlambda / 2) ^ 2)%R in
      let c := (2 * atan2 (sqrt a) (sqrt (1 - a)))%R in
      Some (R_earth * c)%R
  | _, _, _, _ => None
  end.

(** [calculate_geo_score] (geo_utils.py) *)
Definition calculate_geo_score (distance_miles : option R) : R :=
  match distance_miles with
  | None => 0.5%R
  | Some d => let k := 300%R in exp (- d / k)
  end.

Definition calculate_phenotypic_score (u_race m_race : option string) : R :=
  let score :=
    match u_race, m_race with
    | Some a, Some b =>
        if truthy_str u_race && truthy_str m_race
        then (if String.eqb a b then 0.5%R else 0%R) else 0%R
    | _, _ => 0%R
    end in
  Rmin 1 (score * 2).

Definition is_complete (o : option string) : bool :=
  match o with Some s => String.eqb s "Complete" | None => false end.

Definition calculate_bio_multiplier (u_dna u_dental m_dna m_dental : option string) : R :=
  let dna_ready := is_complete u_dna && is_complete m_dna in
  let dental_ready := is_complete u_dental && is_complete m_dental in
  if dna_ready || dental_ready then 1.5%R else 1.0%R.

(** Steps 8 and 9 of [_match_chunk]:
    [composite_score = (text_score * 0.4) + (geo_score * 0.3) + (pheno_score * 0.3)],
    [final_score = min(1.0, composite_score * multiplier)]. *)
Definition combine (text_score geo_score pheno_score multiplier : R) : R :=
  let composite_score := (text_score * 0.4 + geo_score * 0.3 + pheno_score * 0.3)%R in
  Rmin 1 (composite_score * multiplier).

(* ------------------------------------------------------------------ *)
(** ** Lead records *)

(** [round(x, 3)], half to even. *)
Definition round_half_even (x : R) : Z :=
  let n := Int_part x in
  let f := frac_part x in
  if Rlt_dec f 0.5 then n
  else if Rlt_dec 0.5 f then (n + 1)%Z
  else if Z.even n then n else (n + 1)%Z.

Definition py_round3 (x : R) : R := (IZR (round_half_even (x * 1000)) / 1000)%R.

(** Decimal text of a natural number, as [str] prints it. *)
Fixpoint dec_digits (fuel : nat) (n : N) (acc : string) : string :=
  match fuel with
  | O => acc
  | S f =>
      let acc' := String (digit (N.to_nat (n mod 10)%N)) acc in
      if (n <? 10)%N then acc' else dec_digits f (n / 10)%N acc'
  end.

Definition str_of_Z (z : Z) : string :=
  match z with
  | Zneg p => String "-"%char (dec_digits (S (Pos.size_nat p)) (Npos p) "")
  | _ => dec_digits (S (N.size_nat (Z.to_N z))) (Z.to_N z) ""
  end.

(** [int(x)] truncates toward zero. *)
Definition py_int (x : R) : Z :=
  if Rle_dec 0 x then Int_part x else (- Int_part (- x))%Z.

(** [f"{int(dist)} miles away"] *)
Definition miles_away (dist : R) : string :=
  String.append (str_of_Z (py_int dist)) " miles away".

Record lead := mk_lead {
  uhr_case : string;
  mp_file : string;
  lead_mp_name : option string;
  score : R;
  shared_features : list string;
  uhr_desc_preview : string;
  mp_desc_preview : string
}.

(** [s[:200]] *)
Definition preview (s : string) : string := substring 0 200 s.

(* ------------------------------------------------------------------ *)
(** ** [_match_chunk] *)

(** An entry of [processed_uhr]: the row and its [u_words]. *)
Definition processed_uhr : Type := (uhr_row * list string)%type.

(** The [for row in cursor.fetchall()] loop for one unidentified record.
    [None] is an exception: a [ValueError] of the specificity, or the
    [TypeError] of slicing a [None] description. *)
Fixpoint match_rows (u : uhr_row) (u_words : list string) (rows : list mp_row)
  (min_score : R) (self : matcher) : option (list lead * matcher) :=
  match rows with
  | [] => Some ([], self)
  | m :: rest =>
      if age_excluded (estimated_age_min u) (estimated_age_max u) (age_at_disappearance m)
      then match_rows u u_words rest min_score self
      else
        let m_words := minus_stop (get_words (m_description m)) in
        match score_text_overlap u_words m_words self with
        | None => None
        | Some ((text_score, features), self') =>
            let dist := haversine_distance (discovery_lat u) (discovery_lon u)
                          (last_seen_lat m) (last_seen_lon m) in
            let geo_score := calculate_geo_score dist in
            let pheno_score := calculate_phenotypic_score (u_race u) (m_race m) in
            let multiplier := calculate_bio_multiplier (u_dna_status u) (u_dental_status u)
                                (m_dna_status m) (m_dental_status m) in
            let final_score := combine text_score geo_score pheno_score multiplier in
            if Rle_dec min_score final_score then
              match u_description u, m_description m with
              | Some ud, Some md =>
                  let report_features :=
                    match dist with
                    | Some d => app features [miles_away d]
                    | None => features
                    end in
                  let ld := mk_lead (case_number u) (file_number m) (mp_name m)
                              (py_round3 final_score) report_features
                              (preview ud) (preview md) in
                  match match_rows u u_words rest min_score self' with
                  | None => None
                  | Some (ls, self'') => Some (ld :: ls, self'')
                  end
              | _, _ => None
              end
            else match_rows u u_words rest min_score self'
        end
  end.

(** The [for u in uhr_subset] loop. *)
Fixpoint match_subset (uhr_subset : list processed_uhr) (rows : list mp_row)
  (min_score : R) (self : matcher) : option (list lead * matcher) :=
  match uhr_subset with
  | [] => Some ([], self)
  | (u, u_words) :: rest =>
      match match_rows u u_words (candidate_query u rows) min_score self with
      | None => None
      | Some (ls1, self1) =>
          match match_subset rest rows min_score self1 with
          | None => None
          | Some (ls2, self2) => Some (app ls1 ls2, self2)
          end
      end
  end.

(** [_match_chunk(uhr_subset, stats, min_score)]: the worker first sets its
    idf cache, counters and totals from [stats]. *)
Definition match_chunk (uhr_subset : list processed_uhr) (db : database)
  (stats : matcher) (min_score : R) : option (list lead) :=
  option_map fst (match_subset uhr_subset (missing_persons db) min_score stats).

(* ------------------------------------------------------------------ *)
(** ** [find_leads] *)

(** [os.cpu_count() or 4] *)
Definition num_workers (cpu_count : option nat) : nat :=
  match cpu_count with Some (S n) => S n | _ => 4 end.

(** [chunk_size = max(1, len(processed_uhr) // num_workers)] *)
Definition chunk_size {A} (num_workers : nat) (processed : list A) : nat :=
  Nat.max 1 (length processed / num_workers).

(** [range(i, stop, step)] for [step >= 1]; the fuel [stop - start] bounds
    its length. *)
Fixpoint range_from (fuel i stop step : nat) : list nat :=
  match fuel with
  | O => []
  | S f => if Nat.ltb i stop then i :: range_from f (i + step) stop step else []
  end.

Definition py_range (start stop step : nat) : list nat :=
  range_from (stop - start) start stop step.

(** [l[i:j]] for [0 <= i <= j]. *)
Definition py_slice {A} (l : list A) (i j : nat) : list A := firstn (j - i) (skipn i l).

(** [[processed_uhr[i:i + chunk_size] for i in range(0, len(processed_uhr), chunk_size)]] *)
Definition make_chunks {A} (processed : list A) (chunk_size : nat) : list (list A) :=
  map (fun i => py_slice processed i (i + chunk_size)) (py_range 0 (length processed) chunk_size).

(** [for future in futures: all_leads.extend(future.result())]; a failed
    worker re-raises its exception. *)
Fixpoint gather (results : list (option (list lead))) : option (list lead) :=
  match results with
  | [] => Some []
  | None :: _ => None
  | Some ls :: rest =>
      match gather rest with None => None | Some ls' => Some (app ls ls') end
  end.

(** [all_leads.sort(key=lambda x: x['score'], reverse=True)]: stable, so
    leads of equal score keep their order. *)
Fixpoint insert_desc (x : lead) (l : list lead) : list lead :=
  match l with
  | [] => [x]
  | y :: ys => if Rge_dec (score y) (score x) then y :: insert_desc x ys else x :: l
  end.

Definition sort_leads (l : list lead) : list lead :=
  fold_left (fun acc x => insert_desc x acc) l [].

Definition preprocess (u : uhr_row) : processed_uhr :=
  (u, minus_stop (get_words (u_description u))).

Definition find_leads (self : matcher) (db : database) (min_score : R) (limit : nat)
  (parallel : bool) (cpu_count : option nat) : option (list lead) :=
  let self1 := load_stats self db in
  let processed := map preprocess (unidentified_cases db) in
  let stats := self1 in
  let all_leads :=
    if parallel then
      let nw := num_workers cpu_count in
      let chunks := make_chunks processed (chunk_size nw processed) in
      gather (map (fun chunk => match_chunk chunk db stats min_score) chunks)
    else match_chunk processed db stats min_score in
  match all_leads with
  | None => None
  | Some ls => Some (firstn limit (sort_leads ls))
  end.

(* ------------------------------------------------------------------ *)
(** ** The iteration order of [words1 & words2] *)

(** The elements of [words1 & words2], in the order of [words1]; this is
    the order [score_text_overlap] above iterates them in. *)
Definition py_set_and (words1 words2 : list string) : list string :=
  List.filter (fun w => bool_decide (w ∈ words2)) words1.

(** A Python set is iterated in the order of its hash table, and the hash
    of a [str] is salted per process ([PYTHONHASHSEED]): a pool worker,
    started by spawn or forkserver, may iterate [words1 & words2] in
    another order than the main process. A [set_order] is the iteration
    order of [words1 & words2] in one process. *)
Definition set_order : Type := list string -> list string -> list string.

Definition set_order_ok (ord : set_order) : Prop :=
  forall words1 words2, Permutation (ord words1 words2) (py_set_and words1 words2).

(** [score_text_overlap] in a process whose set order is [ord]. *)
Definition score_text_overlap_ord (ord : set_order) (words1 words2 : list string)
  (self : matcher) : option ((R * list string) * matcher) :=
  let common := ord words1 words2 in
  match common with
  | [] => Some ((0%R, []), self)
  | _ =>
      match overlap_loop common 0%R [] self with
      | None => None
      | Some (total_score, matched_features, self') =>
          Some ((Rmin 1 (total_score / 35), matched_features), self')
      end
  end.

Fixpoint match_rows_ord (ord : set_order) (u : uhr_row) (u_words : list string)
  (rows : list mp_row) (min_score : R) (self : matcher) : option (list lead * matcher) :=
  match rows with
  | [] => Some ([], self)
  | m :: rest =>
      if age_excluded (estimated_age_min u) (estimated_age_max u) (age_at_disappearance m)
      then match_rows_ord ord u u_words rest min_score self
      else
        let m_words := minus_stop (get_words (m_description m)) in
        match score_text_overlap_ord ord u_words m_words self with
        | None => None
        | Some ((text_score, features), self') =>
            let dist := haversine_distance (discovery_lat u) (discovery_lon u)
                          (last_seen_lat m) (last_seen_lon m) in
            let geo_score := calculate_geo_score dist in
            let pheno_score := calculate_phenotypic_score (u_race u) (m_race m) in
            let multiplier := calculate_bio_multiplier (u_dna_status u) (u_dental_status u)
                                (m_dna_status m) (m_dental_status m) in
            let final_score := combine text_score geo_score pheno_score multiplier in
            if Rle_dec min_score final_score then
              match u_description u, m_description m with
              | Some ud, Some md =>
                  let report_features :=
                    match dist with
                    | Some d => app features [miles_away d]
                    | None => features
                    end in
                  let ld := mk_lead (case_number u) (file_number m) (mp_name m)
                              (py_round3 final_score) report_features
                              (preview ud) (preview md) in
                  match match_rows_ord ord u u_words rest min_score self' with
                  | None => None
                  | Some (ls, self'') => Some (ld :: ls, self'')
                  end
              | _, _ => None
              end
            else match_rows_ord ord u u_words rest min_score self'
        end
  end.

Fixpoint match_subset_ord (ord : set_order) (uhr_subset : list processed_uhr)
  (rows : list mp_row) (min_score : R) (self : matcher) : option (list lead * matcher) :=
  match uhr_subset with
  | [] => Some ([], self)
  | (u, u_words) :: rest =>
      match match_rows_ord ord u u_words (candidate_query u rows) min_score self with
      | None => None
      | Some (ls1, self1) =>
          match match_subset_ord ord rest rows min_score self1 with
          | None => None
          | Some (ls2, self2) => Some (app ls1 ls2, self2)
          end
      end
  end.

Definition match_chunk_ord (ord : set_order) (uhr_subset : list processed_uhr)
  (db : database) (stats : matcher) (min_score : R) : option (list lead) :=
  option_map fst (match_subset_ord ord uhr_subset (missing_persons db) min_score stats).

(** [executor.submit(self._match_chunk, chunk, stats, min_score)] for each
    chunk: the [i]-th chunk runs in a worker whose set order is
    [worker_ord i]. *)
Fixpoint assign_orders {A} (worker_ord : nat -> set_order) (i : nat) (chunks : list A)
  : list (set_order * A) :=
  match chunks with
  | [] => []
  | c :: cs => (worker_ord i, c) :: assign_orders worker_ord (S i) cs
  end.

(** [all_leads] of [find_leads]: the sequential path runs in the main
    process (set order [main_ord]), the parallel path in the workers. *)
Definition collect_leads_ord (main_ord : set_order) (worker_ord : nat -> set_order)
  (stats : matcher) (db : database) (min_score : R) (parallel : bool)
  (cpu_count : option nat) : option (list lead) :=
  let processed := map preprocess (unidentified_cases db) in
  if parallel then
    let nw := num_workers cpu_count in
    let chunks := make_chunks processed (chunk_size nw processed) in
    gather (map (fun oc => match_chunk_ord (fst oc) (snd oc) db stats min_score)
              (assign_orders worker_ord 0 chunks))
  else match_chunk_ord main_ord processed db stats min_score.

(** [find_leads] with the set order of every process made explicit. *)
Definition find_leads_ord (main_ord : set_order) (worker_ord : nat -> set_order)
  (self : matcher) (db : database) (min_score : R) (limit : nat) (parallel : bool)
  (cpu_count : option nat) : option (list lead) :=
  match collect_leads_ord main_ord worker_ord (load_stats self db) db min_score parallel cpu_count with
  | None => None
  | Some ls => Some (firstn limit (sort_leads ls))
  end.

Example test_tokens :
  minus_stop (get_words (Some "Blue Nike hoodie, scar on left arm; 2019 ID_77"))
  = ["nike"; "hoodie"; "scar"; "left"; "arm"; "id_77"].
Proof. vm_compute. reflexivity. Qed.

Example test_str_of_Z : str_of_Z 1207 = "1207" /\ str_of_Z 0 = "0" /\ str_of_Z (-45) = "-45".
Proof. vm_compute. repeat split. Qed.

Example test_chunks : make_chunks [1;2;3;4;5;6;7;8;9;10] (chunk_size 4 [1;2;3;4;5;6;7;8;9;10])
  = [[1;2];[3;4];[5;6];[7;8];[9;10]].
Proof. reflexivity. Qed.

(** Document frequency of [w] over descriptions: non-empty ones whose
    word set, stop words removed, contains [w]. *)
Definition doc_count (w : string) (descs : list (option string)) : nat :=
  length (List.filter (fun d => truthy_str d && bool_decide (w ∈ minus_stop (get_words d))) descs).

(** The value [idf_lookup] yields for [w] in any run that started from
    the statistics and cache of [base]. *)
Definition spec_val (base : matcher) (w : string) : option R :=
  match idf_cache base !! w with
  | Some v => Some v
  | None =>
      match calculate_specificity w (uhr_df base) (uhr_total base),
            calculate_specificity w (mp_df base) (mp_total base) with
      | Some s1, Some s2 => Some ((s1 + s2) / 2)%R
      | _, _ => None
      end
  end.

(** A matcher state reached from [base] by [_match_chunk]: same counters
    and totals, the cache of [base] kept, every cached value the one
    [spec_val] gives. *)
Definition cache_inv (base s : matcher) : Prop :=
  uhr_total s = uhr_total base /\ mp_total s = mp_total base /\
  uhr_df s = uhr_df base /\ mp_df s = mp_df base /\
  (forall w v, idf_cache base !! w = Some v -> idf_cache s !! w = Some v) /\
  (forall w v, idf_cache s !! w = Some v -> spec_val base w = Some v).

(** Two runs from states related to [base] both fail, or both return the
    same value in states still related to [base]. *)
Definition agree {X} (base : matcher) (r1 r2 : option (X * matcher)) : Prop :=
  match r1, r2 with
  | None, None => True
  | Some (x1, s1), Some (x2, s2) => x1 = x2 /\ cache_inv base s1 /\ cache_inv base s2
  | _, _ => False
  end.

(** The features the loop adds for a word of specificity [v]. *)
Definition feature_of (w : string) (v : R) : list string :=
  if Rlt_dec 2.2 v then [String.append w " (Rare)"]
  else if Rlt_dec 1.5 v then [w]
  else [].

Definition spec_defined (base : matcher) (w : string) : bool :=
  match spec_val base w with Some _ => true | None => false end.

(** The sum of the specificities of [ws], and the features they give. *)
Definition spec_sum (base : matcher) (ws : list string) : R :=
  fold_right (fun w acc => (default 0 (spec_val base w) + acc)%R) 0%R ws.

Definition spec_feats (base : matcher) (ws : list string) : list string :=
  flat_map (fun w => match spec_val base w with Some v => feature_of w v | None => [] end) ws.

(** [agree] up to a relation on the returned values. *)
Definition agree_up_to {X} (rel : X -> X -> Prop) (base : matcher)
  (r1 r2 : option (X * matcher)) : Prop :=
  match r1, r2 with
  | None, None => True
  | Some (x1, s1), Some (x2, s2) => rel x1 x2 /\ cache_inv base s1 /\ cache_inv base s2
  | _, _ => False
  end.

(** Two leads with the same fields, up to the order of [shared_features]. *)
Definition lead_equiv (a b : lead) : Prop :=
  uhr_case a = uhr_case b /\ mp_file a = mp_file b /\ lead_mp_name a = lead_mp_name b /\
  score a = score b /\ Permutation (shared_features a) (shared_features b) /\
  uhr_desc_preview a = uhr_desc_preview b /\ mp_desc_preview a = mp_desc_preview b.

(** Both runs raise, or both return lists of leads related position by
    position by [lead_equiv]. *)
Definition leads_equiv (r1 r2 : option (list lead)) : Prop :=
  match r1, r2 with
  | None, None => True
  | Some l1, Some l2 => Forall2 lead_equiv l1 l2
  | _, _ => False
  end.


(** Statistics as [load_stats] builds them: no document frequency above
    its corpus total, no negative cached specificity. *)
Definition stats_ok (s : matcher) : Prop :=
  (forall w, df_get (uhr_df s) w <= uhr_total s) /\
  (forall w, df_get (mp_df s) w <= mp_total s) /\
  (forall w v, idf_cache s !! w = Some v -> (0 <= v)%R).

(* ------------------------------------------------------------------ *)
(** ** Sample records *)

(** Remains found on 2020-01-01 at (40, -100), estimated 20 to 30. *)
Definition uhr_sample : uhr_row :=
  mk_uhr_row "UP1" (Some "Female") (Some 20%Z) (Some 30%Z)
    (Some (date_text (2020, 1, 1) "")) (Some "blue nike hoodie scar left arm")
    (Some 40%Q) (Some (-100)%Q) None None None.

(** Last seen on 2019-06-01 at (41, -101), aged 25. *)
Definition mp_sample : mp_row :=
  mk_mp_row "MP1" (Some "Jane Doe") (Some 25%Z) (Some (date_text (2019, 6, 1) ""))
    (Some "blue nike hoodie scar left forearm") (Some 41%Q) (Some (-101)%Q)
    (Some "Female") None None None.

(** Same as [uhr_sample] without a discovery date. *)
Definition uhr_undated : uhr_row :=
  mk_uhr_row "UP2" (Some "Female") (Some 20%Z) (Some 30%Z) None
    (Some "blue nike hoodie") (Some 40%Q) (Some (-100)%Q) None None None.

(** A missing person without last-seen coordinates. *)
Definition mp_no_coords : mp_row :=
  mk_mp_row "MP2" (Some "John Roe") (Some 25%Z) None (Some "red jacket")
    None None None None None None.

(** Infant remains (estimated age 0 to 1) and a missing adult aged 30. *)
Definition uhr_infant : uhr_row :=
  mk_uhr_row "UP3" None (Some 0%Z) (Some 1%Z) None (Some "infant remains")
    None None None None None.

Definition mp_adult : mp_row :=
  mk_mp_row "MP3" (Some "Adult") (Some 30%Z) None (Some "adult") None None
    None None None None.

(** A database whose only unidentified description contains a stop word. *)
Definition db_stop_word : database :=
  mk_database [mk_uhr_row "UP4" None None None None (Some "the scar") None None None None None] [].


Definition db_sample : database := mk_database [uhr_sample] [mp_sample].

(** A matcher whose idf cache holds the specificity 3 (log10(1000 / 1)) for
    "nike" and "hoodie", as a run over a larger corpus leaves it. *)
Definition matcher_cached : matcher :=
  mk_matcher (<["nike" := 3%R]> (<["hoodie" := 3%R]> ∅)) 0 0 ∅ ∅.

(** Two records described "nike hoodie", without dates, ages or coordinates. *)
Definition uhr_nike : uhr_row :=
  mk_uhr_row "UP5" None None None None (Some "nike hoodie") None None None None None.

Definition mp_nike : mp_row :=
  mk_mp_row "MP5" (Some "Sam Poe") None None (Some "nike hoodie") None None None None None None.

(** The set order that iterates [words1 & words2] against the order of
    [words1]. *)
Definition reversed_order : set_order := fun words1 words2 => rev (py_set_and words1 words2).

(* ================================================================== *)
(** * Properties *)

(* ------------------------------------------------------------------ *)
(** ** Helper lemmas: SQL logic, text order of stored dates *)

Lemma sql_and_true (a b : sqlbool) : sql_and a b = STrue -> a = STrue /\ b = STrue.
Proof. destruct a, b; simpl; intros H; try discriminate; auto. Qed.

Lemma sql_or_true (a b : sqlbool) : sql_or a b = STrue -> a = STrue \/ b = STrue.
Proof. destruct a, b; simpl; intros H; try discriminate; auto. Qed.

Lemma sql_of_bool_true (b : bool) : sql_of_bool b = STrue -> b = true.
Proof. destruct b; simpl; congruence. Qed.

Lemma selected_conds (u : uhr_row) (m : mp_row) :
  selected u m = true ->
  timeline_cond u m = STrue /\ sex_cond u m = STrue /\ geo_cond u m = STrue.
Proof.
  unfold selected. destruct (where_clause u m) eqn:E; try discriminate. intros _.
  unfold where_clause in E.
  apply sql_and_true in E as [E1 E2]. apply sql_and_true in E1 as [E1 E3]. auto.
Qed.

Lemma in_candidates (u : uhr_row) (rows : list mp_row) (m : mp_row) :
  In m (candidates u rows) -> In m rows /\ selected u m = true /\ age_ok u m = true.
Proof.
  unfold candidates, candidate_query. rewrite !filter_In. tauto.
Qed.

Lemma digits4 (n : nat) :
  n < 10 * 10 * 10 * 10 ->
  n = 1000 * (n/10/10/10 mod 10) + 100 * (n/10/10 mod 10) + 10 * (n/10 mod 10) + n mod 10.
Proof.
  intros H.
  pose proof (Nat.div_mod_eq n 10) as E1.
  pose proof (Nat.div_mod_eq (n/10) 10) as E2.
  pose proof (Nat.div_mod_eq (n/10/10) 10) as E3.
  pose proof (Nat.div_mod_eq (n/10/10/10) 10) as E4.
  pose proof (Nat.mod_upper_bound n 10 ltac:(lia)).
  pose proof (Nat.mod_upper_bound (n/10) 10 ltac:(lia)).
  pose proof (Nat.mod_upper_bound (n/10/10) 10 ltac:(lia)).
  pose proof (Nat.mod_upper_bound (n/10/10/10) 10 ltac:(lia)).
  generalize dependent (n/10/10/10 mod 10); generalize dependent (n/10/10/10/10);
  generalize dependent (n/10/10 mod 10); generalize dependent (n/10/10/10);
  generalize dependent (n/10 mod 10); generalize dependent (n/10/10);
  generalize dependent (n mod 10); generalize dependent (n/10).
  intros; lia.
Qed.

Lemma digits2 (n : nat) : n < 10 * 10 -> n = 10 * (n/10 mod 10) + n mod 10.
Proof.
  intros H.
  pose proof (Nat.div_mod_eq n 10) as E1.
  pose proof (Nat.div_mod_eq (n/10) 10) as E2.
  pose proof (Nat.mod_upper_bound n 10 ltac:(lia)).
  pose proof (Nat.mod_upper_bound (n/10) 10 ltac:(lia)).
  generalize dependent (n/10 mod 10); generalize dependent (n/10/10);
  generalize dependent (n mod 10); generalize dependent (n/10).
  intros; lia.
Qed.

Lemma text_cmp_refl (a : string) : text_cmp a a = Eq.
Proof. induction a as [|c a IH]; simpl; [reflexivity|]. rewrite Nat.compare_refl. exact IH. Qed.

Lemma append_cons (x : ascii) (a b : string) :
  String.append (String x a) b = String x (String.append a b).
Proof. reflexivity. Qed.

Lemma string_append_assoc (a b c : string) :
  String.append (String.append a b) c = String.append a (String.append b c).
Proof. induction a as [|x a IH]; [reflexivity|]. rewrite !append_cons, IH. reflexivity. Qed.

Lemma text_cmp_app (a b x y : string) :
  String.length a = String.length b ->
  text_cmp (String.append a x) (String.append b y) =
  match text_cmp a b with Eq => text_cmp x y | c => c end.
Proof.
  revert b. induction a as [|ca a IH]; intros [|cb b] Hlen; simpl in *;
    try discriminate; [reflexivity|].
  injection Hlen as Hlen. rewrite (IH b Hlen).
  destruct (Nat.compare (nat_of_ascii ca) (nat_of_ascii cb)); auto.
Qed.

Lemma nat_add_compare_mono_l (p n m : nat) : Nat.compare (p + n) (p + m) = Nat.compare n m.
Proof.
  destruct (Nat.compare_spec n m).
  - subst. apply Nat.compare_refl.
  - apply Nat.compare_lt_iff. lia.
  - apply Nat.compare_gt_iff. lia.
Qed.

Lemma digit_cmp (k1 k2 : nat) :
  k1 < 10 -> k2 < 10 ->
  Nat.compare (nat_of_ascii (digit k1)) (nat_of_ascii (digit k2)) = Nat.compare k1 k2.
Proof.
  intros H1 H2. unfold digit. rewrite !nat_ascii_embedding by lia.
  apply nat_add_compare_mono_l.
Qed.

Lemma cmp_split (n q1 q2 r1 r2 : nat) :
  r1 < n -> r2 < n ->
  Nat.compare (n * q1 + r1) (n * q2 + r2) =
  match Nat.compare q1 q2 with Eq => Nat.compare r1 r2 | c => c end.
Proof.
  intros H1 H2. destruct (Nat.compare_spec q1 q2) as [E|L|G].
  - subst. apply nat_add_compare_mono_l.
  - apply Nat.compare_lt_iff. nia.
  - apply Nat.compare_gt_iff. nia.
Qed.

Lemma lex4 (a1 b1 c1 d1 a2 b2 c2 d2 : nat) :
  a1 < 10 -> b1 < 10 -> c1 < 10 -> d1 < 10 ->
  a2 < 10 -> b2 < 10 -> c2 < 10 -> d2 < 10 ->
  Nat.compare (1000 * a1 + 100 * b1 + 10 * c1 + d1) (1000 * a2 + 100 * b2 + 10 * c2 + d2) =
  match Nat.compare a1 a2 with
  | Eq => match Nat.compare b1 b2 with
          | Eq => match Nat.compare c1 c2 with Eq => Nat.compare d1 d2 | c => c end
          | c => c
          end
  | c => c
  end.
Proof.
  intros.
  replace (1000 * a1 + 100 * b1 + 10 * c1 + d1) with (10 * (10 * (10 * a1 + b1) + c1) + d1) by lia.
  replace (1000 * a2 + 100 * b2 + 10 * c2 + d2) with (10 * (10 * (10 * a2 + b2) + c2) + d2) by lia.
  rewrite cmp_split by lia. rewrite cmp_split by lia. rewrite cmp_split by lia.
  destruct (Nat.compare a1 a2), (Nat.compare b1 b2), (Nat.compare c1 c2); reflexivity.
Qed.

Ltac destruct_compares :=
  repeat match goal with
         | |- context [match Nat.compare ?x ?y with _ => _ end] => destruct (Nat.compare x y)
         end.

Lemma pad4_cmp (y1 y2 : nat) :
  y1 < 10 * 10 * 10 * 10 -> y2 < 10 * 10 * 10 * 10 ->
  text_cmp (pad4 y1) (pad4 y2) = Nat.compare y1 y2.
Proof.
  intros H1 H2.
  rewrite (digits4 y1 H1) at 2. rewrite (digits4 y2 H2) at 2.
  rewrite lex4 by (apply Nat.mod_upper_bound; lia).
  unfold pad4. cbn [text_cmp].
  rewrite !digit_cmp by (apply Nat.mod_upper_bound; lia).
  destruct_compares; reflexivity.
Qed.

Lemma pad2_cmp (n1 n2 : nat) :
  n1 < 10 * 10 -> n2 < 10 * 10 -> text_cmp (pad2 n1) (pad2 n2) = Nat.compare n1 n2.
Proof.
  intros H1 H2.
  rewrite (digits2 n1 H1) at 2. rewrite (digits2 n2 H2) at 2.
  rewrite cmp_split by (apply Nat.mod_upper_bound; lia).
  unfold pad2. cbn [text_cmp].
  rewrite !digit_cmp by (apply Nat.mod_upper_bound; lia).
  destruct_compares; reflexivity.
Qed.

(** On stored dates, SQLite's text order is the chronological order. *)
Lemma date_text_cmp (a b : nat * nat * nat) (s1 s2 : string) :
  date_fields_ok a -> date_fields_ok b ->
  text_cmp (date_text a s1) (date_text b s2) =
  match date_cmp a b with Eq => text_cmp s1 s2 | c => c end.
Proof.
  destruct a as [[y1 m1] d1], b as [[y2 m2] d2].
  intros (Hy1 & Hm1 & Hd1) (Hy2 & Hm2 & Hd2).
  unfold date_text, iso_date, date_cmp.
  rewrite !string_append_assoc.
  rewrite text_cmp_app by reflexivity. rewrite pad4_cmp by assumption.
  rewrite text_cmp_app by reflexivity. rewrite text_cmp_refl.
  rewrite text_cmp_app by reflexivity. rewrite pad2_cmp by assumption.
  rewrite text_cmp_app by reflexivity. rewrite text_cmp_refl.
  rewrite text_cmp_app by reflexivity. rewrite pad2_cmp by assumption.
  destruct_compares; reflexivity.
Qed.

Lemma sentinel_text : "9999-12-31" = date_text (9999, 12, 31) "".
Proof. vm_compute. reflexivity. Qed.

Lemma sentinel_fields_ok : date_fields_ok (9999, 12, 31).
Proof. repeat split; apply Nat.ltb_lt; vm_compute; reflexivity. Qed.

Lemma valid_date_fields_ok (a : nat * nat * nat) : valid_date a -> date_fields_ok a.
Proof. destruct a as [[y m] d]. simpl. lia. Qed.

Lemma valid_date_not_after_sentinel (a : nat * nat * nat) :
  valid_date a -> date_cmp a (9999, 12, 31) <> Gt.
Proof.
  assert (E : 9999 = 10 * 10 * 10 * 10 - 1) by reflexivity. rewrite E.
  destruct a as [[y m] d]. unfold valid_date, date_cmp. intros (Hy & Hm & Hd).
  destruct (Nat.compare_spec y (10 * 10 * 10 * 10 - 1)); [|discriminate|lia].
  destruct (Nat.compare_spec m 12); [|discriminate|lia].
  destruct (Nat.compare_spec d 31); [discriminate|discriminate|lia].
Qed.

Lemma date_text_truthy (a : nat * nat * nat) (s : string) :
  u_date_limit (Some (date_text a s)) = date_text a s.
Proof. destruct a as [[y m] d]. reflexivity. Qed.

(* ------------------------------------------------------------------ *)
(** ** C2: the timeline hard filter *)

(** C2: candidate generation never admits a missing-person row whose
    last-seen date is strictly after the discovery date of the remains
    when both dates are known; when the discovery date is unknown (None or
    empty) the sentinel '9999-12-31' is used, and every valid stored date
    passes the timeline condition. *)
Theorem timeline_filter_sound :
  (forall (u : uhr_row) (rows : list mp_row) (m : mp_row) (du dm : nat * nat * nat)
          (su sm : string),
     date_fields_ok du -> date_fields_ok dm ->
     discovery_date u = Some (date_text du su) ->
     last_seen_date m = Some (date_text dm sm) ->
     In m (candidates u rows) -> date_cmp dm du <> Gt) /\
  (forall (u : uhr_row) (m : mp_row) (dm : nat * nat * nat) (sm : string),
     truthy_str (discovery_date u) = false -> valid_date dm ->
     (date_cmp dm (9999, 12, 31) = Lt \/ sm = "") ->
     last_seen_date m = Some (date_text dm sm) ->
     u_date_limit (discovery_date u) = "9999-12-31" /\ timeline_cond u m = STrue).
Proof.
  split.
  - intros u rows m du dm su sm Hdu Hdm Hu Hm Hin Hgt.
    apply in_candidates in Hin as (_ & Hsel & _).
    apply selected_conds in Hsel as (Ht & _ & _).
    unfold timeline_cond in Ht. rewrite Hu, Hm, date_text_truthy in Ht.
    apply sql_or_true in Ht as [Ht|Ht]; [discriminate|].
    unfold sql_text_le in Ht. apply sql_of_bool_true in Ht.
    rewrite date_text_cmp, Hgt in Ht by assumption. discriminate.
  - intros u m dm sm Hu Hdm Hs Hm.
    assert (Hlim : u_date_limit (discovery_date u) = "9999-12-31").
    { unfold u_date_limit. destruct (discovery_date u); [|reflexivity].
      rewrite Hu. reflexivity. }
    split; [exact Hlim|].
    unfold timeline_cond. rewrite Hm, Hlim, sentinel_text. simpl sql_is_null.
    unfold sql_text_le.
    rewrite date_text_cmp by (auto using valid_date_fields_ok, sentinel_fields_ok).
    destruct (date_cmp dm (9999, 12, 31)) eqn:E.
    + destruct Hs as [Hs|Hs]; [discriminate|]. subst sm. reflexivity.
    + reflexivity.
    + exfalso. exact (valid_date_not_after_sentinel dm Hdm E).
Qed.

Lemma timeline_filter_sound_witness :
  (In mp_sample (candidates uhr_sample [mp_sample]) /\
   date_cmp (2019, 6, 1) (2020, 1, 1) <> Gt) /\
  (u_date_limit (discovery_date uhr_undated) = "9999-12-31" /\
   timeline_cond uhr_undated mp_sample = STrue).
Proof.
  split.
  - split; [vm_compute; left; reflexivity|].
    apply (proj1 timeline_filter_sound uhr_sample [mp_sample] mp_sample
             (2020, 1, 1) (2019, 6, 1) "" "").
    + repeat split; apply Nat.ltb_lt; vm_compute; reflexivity.
    + repeat split; apply Nat.ltb_lt; vm_compute; reflexivity.
    + reflexivity.
    + reflexivity.
    + vm_compute. left. reflexivity.
  - apply (proj2 timeline_filter_sound uhr_undated mp_sample (2019, 6, 1) "").
    + reflexivity.
    + repeat split; apply Nat.leb_le; vm_compute; reflexivity.
    + right. reflexivity.
    + reflexivity.
Defined.

(* ------------------------------------------------------------------ *)
(** ** C3: the combined score lies in [0, 1] *)

(** C3: for sub-scores in [0, 1] and a multiplier of 1.0 or 1.5,
    [min(1.0, (0.4 text + 0.3 geo + 0.3 pheno) * multiplier)] is in [0, 1]. *)
Theorem combine_in_unit_interval (text_score geo_score pheno_score multiplier : R) :
  (0 <= text_score <= 1)%R -> (0 <= geo_score <= 1)%R -> (0 <= pheno_score <= 1)%R ->
  (multiplier = 1.0 \/ multiplier = 1.5)%R ->
  (0 <= combine text_score geo_score pheno_score multiplier <= 1)%R.
Proof.
  intros Ht Hg Hp Hm. unfold combine.
  split; [|apply Rmin_l].
  destruct Hm as [-> | ->]; apply Rmin_case; lra.
Qed.

Lemma combine_in_unit_interval_witness :
  (0 <= combine 0.5 1 0 1.5 <= 1)%R.
Proof. apply combine_in_unit_interval; lra. Defined.

(* ------------------------------------------------------------------ *)
(** ** C9: the geographic score *)

(** C9: [calculate_geo_score None = 0.5], [calculate_geo_score 0 = 1.0],
    for a known distance d >= 0 the score is e^(-d/300), and it strictly
    decreases as the distance grows. *)
Theorem geo_score_spec :
  calculate_geo_score None = 0.5%R /\
  calculate_geo_score (Some 0%R) = 1%R /\
  (forall d : R, (0 <= d)%R -> calculate_geo_score (Some d) = exp (- d / 300)) /\
  (forall d1 d2 : R, (0 <= d1 < d2)%R ->
     (calculate_geo_score (Some d2) < calculate_geo_score (Some d1))%R).
Proof.
  split; [reflexivity|]. split; [|split].
  - simpl. replace (- 0 / 300)%R with 0%R by lra. apply exp_0.
  - intros d _. reflexivity.
  - intros d1 d2 [_ H]. simpl. apply exp_increasing. lra.
Qed.

Lemma geo_score_spec_witness :
  (calculate_geo_score (Some 150%R) = exp (- 150 / 300))%R /\
  (calculate_geo_score (Some 600%R) < calculate_geo_score (Some 300%R))%R.
Proof.
  split.
  - apply (proj1 (proj2 (proj2 geo_score_spec)) 150%R). lra.
  - apply (proj2 (proj2 (proj2 geo_score_spec)) 300%R 600%R). lra.
Defined.

(* ------------------------------------------------------------------ *)
(** ** Chunking of the parallel path *)

Lemma concat_range_from {A} (l : list A) (c fuel i : nat) :
  1 <= c -> length l - i <= fuel ->
  concat (map (fun j => py_slice l j (j + c)) (range_from fuel i (length l) c)) = skipn i l.
Proof.
  intros Hc. revert i. induction fuel as [|f IH]; intros i Hf; simpl.
  - symmetry. apply skipn_all2. lia.
  - destruct (Nat.ltb_spec i (length l)) as [Hlt|Hge]; simpl.
    + rewrite IH by lia. unfold py_slice.
      replace (i + c - i) with c by lia.
      rewrite <- (firstn_skipn c (skipn i l)) at 2.
      rewrite skipn_skipn. rewrite (Nat.add_comm c i). reflexivity.
    + symmetry. apply skipn_all2. lia.
Qed.

Lemma concat_make_chunks {A} (l : list A) (c : nat) :
  1 <= c -> concat (make_chunks l c) = l.
Proof.
  intros Hc. unfold make_chunks, py_range.
  rewrite concat_range_from by lia. reflexivity.
Qed.

Lemma chunk_size_pos {A} (n : nat) (l : list A) : 1 <= chunk_size n l.
Proof. unfold chunk_size. lia. Qed.

(** C10: for every positive worker count, the chunks of the parallel path
    (slices of length [max(1, len // worker_count)]) concatenate, in order,
    to the list of pre-processed records: each record lands in exactly one
    chunk, whatever the number of chunks. *)
Theorem chunks_partition_records {A} (processed : list A) (worker_count : nat) :
  1 <= worker_count ->
  concat (make_chunks processed (chunk_size worker_count processed)) = processed.
Proof. intros _. apply concat_make_chunks, chunk_size_pos. Qed.

Lemma chunks_partition_records_witness :
  1 <= 4 /\
  length (make_chunks [1; 2; 3; 4; 5; 6; 7; 8; 9; 10]
            (chunk_size 4 [1; 2; 3; 4; 5; 6; 7; 8; 9; 10])) = 5 /\
  concat (make_chunks [1; 2; 3; 4; 5; 6; 7; 8; 9; 10]
            (chunk_size 4 [1; 2; 3; 4; 5; 6; 7; 8; 9; 10])) = [1; 2; 3; 4; 5; 6; 7; 8; 9; 10].
Proof.
  split; [lia|]. split; [reflexivity|].
  apply (chunks_partition_records [1; 2; 3; 4; 5; 6; 7; 8; 9; 10] 4). lia.
Defined.

(* ------------------------------------------------------------------ *)
(** ** C6: the chunk size *)

(** C6 as stated: the chunk size is [ceil(len / worker_count)]. *)
Lemma chunk_size_not_ceil :
  ~ (forall (l : list nat) (worker_count : nat), l <> [] -> 1 <= worker_count ->
       chunk_size worker_count l = (length l + worker_count - 1) / worker_count).
Proof.
  intros H.
  specialize (H [1; 2; 3; 4; 5; 6; 7; 8; 9; 10] 4 ltac:(discriminate) ltac:(lia)).
  vm_compute in H. discriminate.
Qed.

(** C6 (amended): the chunk size is [max(1, len // worker_count)], a
    function of the record count and the worker count only; for a
    non-empty list it never exceeds [ceil(len / worker_count)], and it
    equals it exactly when the worker count divides the length or exceeds
    it. *)
Theorem chunk_size_floor {A} (l : list A) (worker_count : nat) :
  l <> [] -> 1 <= worker_count ->
  chunk_size worker_count l = Nat.max 1 (length l / worker_count) /\
  (forall l' : list A, length l' = length l -> chunk_size worker_count l' = chunk_size worker_count l) /\
  chunk_size worker_count l <= (length l + worker_count - 1) / worker_count /\
  (chunk_size worker_count l = (length l + worker_count - 1) / worker_count <->
   length l mod worker_count = 0 \/ length l < worker_count).
Proof.
  intros Hl Hn. unfold chunk_size.
  assert (Hlen : 1 <= length l) by (destruct l; [congruence|simpl; lia]).
  set (len := length l) in *.
  pose proof (Nat.div_mod_eq len worker_count) as E.
  pose proof (Nat.mod_upper_bound len worker_count ltac:(lia)) as B.
  set (q := len / worker_count) in *. set (r := len mod worker_count) in *.
  assert (Hceil : (len + worker_count - 1) / worker_count = if Nat.eqb r 0 then q else S q).
  { destruct (Nat.eqb_spec r 0) as [R0|R0].
    - symmetry. apply (Nat.div_unique _ _ _ (worker_count - 1)); lia.
    - symmetry. apply (Nat.div_unique _ _ _ (r - 1)); lia. }
  rewrite Hceil.
  split; [reflexivity|]. split.
  { intros l' Hl'. rewrite Hl'. reflexivity. }
  assert (Hq : q = 0 <-> len < worker_count).
  { split; intros Hq.
    - rewrite Hq in E. lia.
    - apply Nat.div_small. exact Hq. }
  destruct (Nat.eqb_spec r 0) as [R0|R0]; split.
  - destruct q; lia.
  - split; intros _; [left; exact R0|].
    destruct q; [|lia]. exfalso. rewrite R0 in E. lia.
  - lia.
  - split.
    + intros Heq. right. apply Hq. lia.
    + intros [H0|H0]; [contradiction|]. apply Hq in H0. rewrite H0. reflexivity.
Qed.

Lemma chunk_size_floor_witness :
  chunk_size 4 [1; 2; 3; 4; 5; 6; 7; 8; 9; 10] = 2 /\
  chunk_size 4 [1; 2; 3; 4; 5; 6; 7; 8; 9; 10] <= (10 + 4 - 1) / 4.
Proof.
  split; [reflexivity|].
  exact (proj1 (proj2 (proj2 (chunk_size_floor [1; 2; 3; 4; 5; 6; 7; 8; 9; 10] 4
           ltac:(discriminate) ltac:(lia))))).
Defined.

(* ------------------------------------------------------------------ *)
(** ** C7: the bounding-box pre-filter *)

(** C7 as stated: with known discovery coordinates, every admitted row has
    last-seen coordinates within +/-8 degrees. *)
Lemma geo_box_counterexample :
  ~ (forall (u : uhr_row) (rows : list mp_row) (m : mp_row) (la lo : Q),
       discovery_lat u = Some la -> discovery_lon u = Some lo ->
       In m (candidates u rows) ->
       exists mla mlo, last_seen_lat m = Some mla /\ last_seen_lon m = Some mlo /\
         (la - 8 <= mla <= la + 8)%Q /\ (lo - 8 <= mlo <= lo + 8)%Q).
Proof.
  intros H.
  destruct (H uhr_sample [mp_no_coords] mp_no_coords 40%Q (-100)%Q)
    as (mla & mlo & Hla & _).
  - reflexivity.
  - reflexivity.
  - vm_compute. left. reflexivity.
  - discriminate.
Qed.

(** C7 (amended): with known discovery coordinates, every row the SQL
    prefilter returns either has no last-seen latitude, or has both
    last-seen coordinates within +/-8 degrees of the discovery
    coordinates; and the box condition is TRUE for every row without a
    last-seen latitude, whatever its longitude. *)
Theorem geo_box_filter (u : uhr_row) (m : mp_row) (la lo : Q) :
  discovery_lat u = Some la -> discovery_lon u = Some lo ->
  (selected u m = true ->
   last_seen_lat m = None \/
   exists mla mlo, last_seen_lat m = Some mla /\ last_seen_lon m = Some mlo /\
     (la - 8 <= mla <= la + 8)%Q /\ (lo - 8 <= mlo <= lo + 8)%Q) /\
  (last_seen_lat m = None -> geo_cond u m = STrue).
Proof.
  intros Hla Hlo. split.
  - intros Hsel.
    apply selected_conds in Hsel as (_ & _ & Hg).
    unfold geo_cond in Hg. rewrite Hla, Hlo in Hg.
    apply sql_or_true in Hg as [Hg|Hg].
    + left. destruct (last_seen_lat m); [discriminate|reflexivity].
    + right. apply sql_and_true in Hg as [H1 H2]. unfold sql_between in H1, H2.
      destruct (last_seen_lat m) as [mla|]; [|discriminate].
      destruct (last_seen_lon m) as [mlo|]; [|discriminate].
      apply sql_of_bool_true, andb_true_iff in H1 as [H1a H1b].
      apply sql_of_bool_true, andb_true_iff in H2 as [H2a H2b].
      apply Qle_bool_iff in H1a, H1b, H2a, H2b.
      exists mla, mlo. auto.
  - intros Hn. unfold geo_cond. rewrite Hla, Hlo, Hn. reflexivity.
Qed.

Lemma geo_box_filter_witness :
  selected uhr_sample mp_sample = true /\
  (last_seen_lat mp_sample = None \/
   exists mla mlo, last_seen_lat mp_sample = Some mla /\ last_seen_lon mp_sample = Some mlo /\
     (40 - 8 <= mla <= 40 + 8)%Q /\ ((-100) - 8 <= mlo <= (-100) + 8)%Q) /\
  last_seen_lat mp_no_coords = None /\ geo_cond uhr_sample mp_no_coords = STrue.
Proof.
  assert (Hsel : selected uhr_sample mp_sample = true) by (vm_compute; reflexivity).
  split; [exact Hsel|]. split.
  - exact (proj1 (geo_box_filter uhr_sample mp_sample 40%Q (-100)%Q eq_refl eq_refl) Hsel).
  - split; [reflexivity|].
    exact (proj2 (geo_box_filter uhr_sample mp_no_coords 40%Q (-100)%Q eq_refl eq_refl) eq_refl).
Defined.

(* ------------------------------------------------------------------ *)
(** ** C8: the age window *)

(** C8 (code): remains estimated at 0 to 1 years and a missing adult of 30
    both have known ages, 30 lies outside [0 - 10, 1 + 10], and yet the
    age filter admits the pair: the known age 0 is falsy in Python. *)
Theorem age_filter_zero_min_admits :
  age_ok uhr_infant mp_adult = true /\
  ~ (0 - 10 <= 30 <= 1 + 10)%Z /\
  candidates uhr_infant [mp_adult] = [mp_adult].
Proof.
  split; [reflexivity|]. split; [lia|]. vm_compute. reflexivity.
Qed.

(** With non-zero ages on both sides the window is the one of the spec,
    and an unknown age on either side passes. *)
Lemma age_filter_known_nonzero (amin amax a : Z) :
  amin <> 0%Z -> amax <> 0%Z -> a <> 0%Z ->
  (age_excluded (Some amin) (Some amax) (Some a) = false <-> (amin - 10 <= a <= amax + 10)%Z) /\
  (forall x y, age_excluded None x y = false) /\
  (forall x y, age_excluded x y None = false).
Proof.
  intros H1 H2 H3. split; [|split; intros x y; [reflexivity|destruct x; reflexivity]].
  unfold age_excluded, truthy_Z.
  rewrite (proj2 (Z.eqb_neq _ _) H1), (proj2 (Z.eqb_neq _ _) H2), (proj2 (Z.eqb_neq _ _) H3).
  simpl. rewrite orb_false_iff, Z.ltb_ge, Z.gtb_ltb, Z.ltb_ge. lia.
Qed.

(* ------------------------------------------------------------------ *)
(** ** C4: specificity and document frequency *)

Lemma ln10_pos : (0 < ln 10)%R.
Proof. rewrite <- ln_1. apply ln_increasing; lra. Qed.

Lemma log10_1000 : log10 (INR 1000 / INR 1) = 3%R.
Proof.
  unfold log10.
  replace (INR 1000) with 1000%R by (rewrite INR_IZR_INZ; reflexivity).
  replace (INR 1) with 1%R by reflexivity.
  replace (1000 / 1)%R with (10 ^ 3)%R by (simpl; lra).
  rewrite ln_pow by lra. simpl INR. pose proof ln10_pos. field. lra.
Qed.

(** C4 as stated: specificity is non-increasing in the document frequency,
    the frequency 0 (constant 2.5) included. *)
Lemma specificity_not_monotone_at_zero :
  ~ (forall (word : string) (df1 df2 : gmap string nat) (total_docs : nat) (s1 s2 : R),
       is_stop word = false -> df_get df1 word <= df_get df2 word ->
       calculate_specificity word df1 total_docs = Some s1 ->
       calculate_specificity word df2 total_docs = Some s2 -> (s2 <= s1)%R).
Proof.
  intros H.
  assert (Hle : (log10 (INR 1000 / INR 1) <= 2.5)%R).
  { apply (H "tattoo" ∅ {[ "tattoo" := 1 ]} 1000); reflexivity || (apply Nat.leb_le; reflexivity). }
  rewrite log10_1000 in Hle. lra.
Qed.

(** [log10 x > 2.5] exactly when [x > 10^2.5]. *)
Lemma log10_gt_iff (x : R) : (0 < x)%R -> (2.5 < log10 x <-> Rpower 10 2.5 < x)%R.
Proof.
  intros Hx. pose proof ln10_pos as H10. unfold log10, Rpower. split; intros H.
  - assert (Hl : (2.5 * ln 10 < ln x)%R).
    { replace (ln x) with (ln x / ln 10 * ln 10)%R by (field; lra).
      apply Rmult_lt_compat_r; assumption. }
    rewrite <- (exp_ln x Hx). apply exp_increasing. exact Hl.
  - apply ln_increasing in H; [|apply exp_pos]. rewrite ln_exp in H.
    apply (Rmult_lt_reg_r (ln 10)); [exact H10|].
    replace (ln x / ln 10 * ln 10)%R with (ln x) by (field; lra). exact H.
Qed.

(** C4 (amended): for a token that is not a stop word and a fixed positive
    document total N, specificity is non-increasing over frequencies
    [1 <= d1 <= d2]; a token that never occurs gets the constant 2.5, which
    is not ordered with them: it is below log10(N/d) exactly when
    N/d > 10^2.5. *)
Theorem specificity_monotone_positive (word : string) (df1 df2 : gmap string nat)
  (total_docs : nat) :
  is_stop word = false -> 1 <= df_get df1 word <= df_get df2 word -> 1 <= total_docs ->
  exists s1 s2, calculate_specificity word df1 total_docs = Some s1 /\
    calculate_specificity word df2 total_docs = Some s2 /\ (s2 <= s1)%R /\
    (2.5 < s1 <-> Rpower 10 2.5 < INR total_docs / INR (df_get df1 word))%R /\
    (forall df0, df_get df0 word = 0 -> calculate_specificity word df0 total_docs = Some 2.5%R).
Proof.
  intros Hstop Hd HT. unfold calculate_specificity. rewrite Hstop.
  destruct (Nat.leb_spec (df_get df1 word) 0) as [?|_]; [lia|].
  destruct (Nat.leb_spec (df_get df2 word) 0) as [?|_]; [lia|].
  destruct (Nat.eqb_spec total_docs 0) as [?|_]; [lia|].
  eexists _, _. split; [reflexivity|]. split; [reflexivity|].
  assert (Ha : (1 <= INR (df_get df1 word))%R) by (apply (le_INR 1); lia).
  assert (Hab : (INR (df_get df1 word) <= INR (df_get df2 word))%R) by (apply le_INR; lia).
  assert (HT' : (1 <= INR total_docs)%R) by (apply (le_INR 1); lia).
  assert (Hx : (0 < INR total_docs / INR (df_get df2 word) <=
                INR total_docs / INR (df_get df1 word))%R).
  { split; [apply Rdiv_lt_0_compat; lra|].
    unfold Rdiv. apply Rmult_le_compat_l; [lra|]. apply Rinv_le_contravar; lra. }
  split; [|split; [apply log10_gt_iff; apply Rdiv_lt_0_compat; lra|intros df0 Hz; rewrite Hz; reflexivity]].
  unfold log10, Rdiv at 1 3. apply Rmult_le_compat_r.
  - left. apply Rinv_0_lt_compat, ln10_pos.
  - destruct (Rle_lt_or_eq_dec _ _ (proj2 Hx)) as [Hlt|Heq].
    + left. apply ln_increasing; lra.
    + right. rewrite Heq. reflexivity.
Qed.

Lemma specificity_monotone_positive_witness :
  exists s1 s2, calculate_specificity "tattoo" {[ "tattoo" := 1 ]} 1000 = Some s1 /\
    calculate_specificity "tattoo" {[ "tattoo" := 4 ]} 1000 = Some s2 /\ (s2 <= s1)%R /\
    (2.5 < s1 <-> Rpower 10 2.5 < INR 1000%nat / INR (df_get {[ "tattoo" := 1%nat ]} "tattoo"))%R /\
    (forall df0, df_get df0 "tattoo" = 0 -> calculate_specificity "tattoo" df0 1000 = Some 2.5%R).
Proof.
  apply specificity_monotone_positive.
  - reflexivity.
  - split; apply Nat.leb_le; reflexivity.
  - apply Nat.leb_le; reflexivity.
Defined.

(* ------------------------------------------------------------------ *)
(** ** C5: the corpus statistics *)

Lemma df_get_incr (df : gmap string nat) (x w : string) :
  df_get (df_incr df x) w = if bool_decide (w = x) then S (df_get df w) else df_get df w.
Proof.
  unfold df_incr, df_get. case_bool_decide as E.
  - subst. rewrite lookup_insert_eq. reflexivity.
  - rewrite lookup_insert_ne by congruence. reflexivity.
Qed.

Lemma df_incr_fold (ws : list string) (df : gmap string nat) (w : string) :
  NoDup ws ->
  df_get (foldl df_incr df ws) w = df_get df w + (if bool_decide (w ∈ ws) then 1 else 0).
Proof.
  revert df. induction ws as [|x ws IH]; intros df Hnd; cbn [foldl].
  - rewrite (bool_decide_eq_false_2 (w ∈ [])) by (intros Hin; inversion Hin). lia.
  - apply NoDup_cons in Hnd as [Hx Hnd].
    rewrite IH by exact Hnd. rewrite df_get_incr.
    destruct (decide (w = x)) as [E|E].
    + rewrite (bool_decide_eq_true_2 (w = x)) by exact E. subst w. rewrite (bool_decide_eq_false_2 (x ∈ ws)) by exact Hx.
      rewrite bool_decide_eq_true_2 by (apply elem_of_cons; left; reflexivity). lia.
    + rewrite (bool_decide_eq_false_2 (w = x)) by exact E.
      assert (Hiff : w ∈ x :: ws <-> w ∈ ws).
      { rewrite elem_of_cons. tauto. }
      destruct (decide (w ∈ ws)) as [Hin|Hin].
      * rewrite (bool_decide_eq_true_2 (w ∈ ws)) by exact Hin.
        rewrite (bool_decide_eq_true_2 (w ∈ x :: ws)) by (apply Hiff; exact Hin). lia.
      * rewrite (bool_decide_eq_false_2 (w ∈ ws)) by exact Hin.
        rewrite (bool_decide_eq_false_2 (w ∈ x :: ws)) by (rewrite Hiff; exact Hin). lia.
Qed.

Lemma NoDup_doc_words (d : option string) : NoDup (minus_stop (get_words d)).
Proof.
  unfold minus_stop, get_words. apply NoDup_ListNoDup, List.NoDup_filter.
  destruct d as [t|]; [|constructor].
  destruct (truthy_str (Some t)); [|constructor].
  apply List.NoDup_filter, NoDup_ListNoDup, NoDup_remove_dups.
Qed.

Lemma count_docs_df (descs : list (option string)) (t : nat) (df : gmap string nat) (w : string) :
  df_get (snd (count_docs (t, df) descs)) w = df_get df w + doc_count w descs /\
  fst (count_docs (t, df) descs) = t + length (List.filter truthy_str descs).
Proof.
  unfold count_docs, doc_count. revert t df.
  induction descs as [|d ds IH]; intros t df; cbn [foldl List.filter length fst snd]; [lia|].
  assert (Hc : count_doc (t, df) d =
    if truthy_str d then (S t, foldl df_incr df (minus_stop (get_words d))) else (t, df))
    by reflexivity.
  rewrite Hc. destruct (truthy_str d) eqn:Ed; cbn [andb length].
  - destruct (IH (S t) (foldl df_incr df (minus_stop (get_words d)))) as [IH1 IH2].
    rewrite IH1, IH2, df_incr_fold by apply NoDup_doc_words.
    destruct (bool_decide (w ∈ minus_stop (get_words d))); simpl; lia.
  - destruct (IH t df) as [IH1 IH2]. rewrite IH1, IH2. lia.
Qed.

Lemma doc_count_stop (w : string) (descs : list (option string)) :
  is_stop w = true -> doc_count w descs = 0.
Proof.
  intros Hs. unfold doc_count. induction descs as [|d ds IH]; simpl; [reflexivity|].
  rewrite (bool_decide_eq_false_2 (w ∈ minus_stop (get_words d))).
  - rewrite andb_false_r. exact IH.
  - intros Hin. apply list_elem_of_In in Hin. unfold minus_stop in Hin.
    apply filter_In in Hin as [_ Hn]. rewrite Hs in Hn. discriminate.
Qed.

(** C5 as stated: the build step counts tokens without removing stop
    words, so a stop word's count is the number of documents containing it. *)
Lemma build_counts_stop_words_refuted :
  ~ (forall (db : database) (w : string),
       df_get (uhr_df (load_stats init_matcher db)) w =
       length (List.filter (fun d => truthy_str d && bool_decide (w ∈ get_words d))
                 (map u_description (unidentified_cases db)))).
Proof.
  intros H. specialize (H db_stop_word "the"). vm_compute in H. discriminate.
Qed.

(** C5 (amended): [load_stats] removes the configured stop words before
    counting: each token's count grows by the number of non-empty
    descriptions whose word set, stop words removed, contains it, and the
    totals by the number of non-empty descriptions; from a fresh matcher a
    stop-word token therefore has count 0 in both tables. *)
Theorem load_stats_counts (self : matcher) (db : database) (w : string) :
  df_get (uhr_df (load_stats self db)) w =
    df_get (uhr_df self) w + doc_count w (map u_description (unidentified_cases db)) /\
  df_get (mp_df (load_stats self db)) w =
    df_get (mp_df self) w + doc_count w (map m_description (missing_persons db)) /\
  uhr_total (load_stats self db) =
    uhr_total self + length (List.filter truthy_str (map u_description (unidentified_cases db))) /\
  mp_total (load_stats self db) =
    mp_total self + length (List.filter truthy_str (map m_description (missing_persons db))) /\
  (is_stop w = true ->
   df_get (uhr_df (load_stats init_matcher db)) w = 0 /\
   df_get (mp_df (load_stats init_matcher db)) w = 0).
Proof.
  assert (Hgen : forall self' : matcher,
    df_get (uhr_df (load_stats self' db)) w =
      df_get (uhr_df self') w + doc_count w (map u_description (unidentified_cases db)) /\
    df_get (mp_df (load_stats self' db)) w =
      df_get (mp_df self') w + doc_count w (map m_description (missing_persons db)) /\
    uhr_total (load_stats self' db) =
      uhr_total self' + length (List.filter truthy_str (map u_description (unidentified_cases db))) /\
    mp_total (load_stats self' db) =
      mp_total self' + length (List.filter truthy_str (map m_description (missing_persons db)))).
  { intros self'. unfold load_stats.
    pose proof (count_docs_df (map u_description (unidentified_cases db))
                  (uhr_total self') (uhr_df self') w) as [U1 U2].
    pose proof (count_docs_df (map m_description (missing_persons db))
                  (mp_total self') (mp_df self') w) as [M1 M2].
    destruct (count_docs (uhr_total self', uhr_df self') _) as [ut udf].
    destruct (count_docs (mp_total self', mp_df self') _) as [mt mdf].
    simpl in *. auto. }
  destruct (Hgen self) as (H1 & H2 & H3 & H4).
  split; [exact H1|]. split; [exact H2|]. split; [exact H3|]. split; [exact H4|].
  intros Hs. destruct (Hgen init_matcher) as (G1 & G2 & _). split.
  - rewrite G1, doc_count_stop by exact Hs. reflexivity.
  - rewrite G2, doc_count_stop by exact Hs. reflexivity.
Qed.

Lemma load_stats_counts_witness :
  is_stop "the" = true /\
  df_get (uhr_df (load_stats init_matcher db_stop_word)) "the" = 0.
Proof.
  split; [reflexivity|].
  apply (proj2 (proj2 (proj2 (proj2 (load_stats_counts init_matcher db_stop_word "the"))))).
  reflexivity.
Defined.

(* ------------------------------------------------------------------ *)
(** ** C1: parallel and sequential matching *)

Lemma cache_inv_refl (base : matcher) : cache_inv base base.
Proof.
  unfold cache_inv. repeat split; auto.
  intros w v Hv. unfold spec_val. rewrite Hv. reflexivity.
Qed.

(** A lookup from a related state yields the value of [spec_val] and
    leaves a related state. *)
Lemma idf_lookup_inv (base s : matcher) (w : string) :
  cache_inv base s ->
  option_map fst (idf_lookup w s) = spec_val base w /\
  (forall v s', idf_lookup w s = Some (v, s') -> cache_inv base s').
Proof.
  intros Hinv. pose proof Hinv as (Hut & Hmt & Hud & Hmd & Hkeep & Hval).
  unfold idf_lookup. destruct (idf_cache s !! w) as [v|] eqn:Hc.
  - split.
    + simpl. symmetry. apply Hval. exact Hc.
    + intros v' s' Heq. injection Heq as <- <-. exact Hinv.
  - assert (Hb : idf_cache base !! w = None).
    { destruct (idf_cache base !! w) as [vb|] eqn:Hb; [|reflexivity].
      apply Hkeep in Hb. congruence. }
    rewrite Hut, Hmt, Hud, Hmd.
    unfold spec_val at 1. rewrite Hb.
    destruct (calculate_specificity w (uhr_df base) (uhr_total base)) as [s1|] eqn:C1;
      [|split; [reflexivity|discriminate]].
    destruct (calculate_specificity w (mp_df base) (mp_total base)) as [s2|] eqn:C2;
      [|split; [reflexivity|discriminate]].
    split; [reflexivity|].
    intros v s' Heq. injection Heq as <- <-.
    unfold cache_inv; simpl. repeat split; auto.
    + intros w' v' Hw'. destruct (decide (w' = w)) as [->|Hne].
      * congruence.
      * rewrite lookup_insert_ne by congruence. apply Hkeep. exact Hw'.
    + intros w' v' Hw'. destruct (decide (w' = w)) as [->|Hne].
      * rewrite lookup_insert_eq in Hw'. injection Hw' as <-.
        unfold spec_val. rewrite Hb, C1, C2. reflexivity.
      * rewrite lookup_insert_ne in Hw' by congruence. apply Hval. exact Hw'.
Qed.

Lemma overlap_loop_agree (base : matcher) (ws : list string) :
  forall total feats s1 s2, cache_inv base s1 -> cache_inv base s2 ->
  agree base (overlap_loop ws total feats s1) (overlap_loop ws total feats s2).
Proof.
  induction ws as [|w ws IH]; intros total feats s1 s2 H1 H2; simpl.
  - auto.
  - destruct (idf_lookup_inv base s1 w H1) as [E1 K1].
    destruct (idf_lookup_inv base s2 w H2) as [E2 K2].
    destruct (idf_lookup w s1) as [[v1 s1']|] eqn:L1;
    destruct (idf_lookup w s2) as [[v2 s2']|] eqn:L2; simpl in E1, E2.
    + assert (v1 = v2) as <- by congruence.
      apply IH; [eapply K1 | eapply K2]; reflexivity.
    + congruence.
    + congruence.
    + exact I.
Qed.

Lemma score_text_overlap_agree (base : matcher) (words1 words2 : list string) s1 s2 :
  cache_inv base s1 -> cache_inv base s2 ->
  agree base (score_text_overlap words1 words2 s1) (score_text_overlap words1 words2 s2).
Proof.
  intros H1 H2. unfold score_text_overlap.
  destruct (List.filter (fun w => bool_decide (w ∈ words2)) words1) as [|w ws].
  - simpl. auto.
  - pose proof (overlap_loop_agree base (w :: ws) 0%R [] s1 s2 H1 H2) as A.
    destruct (overlap_loop (w :: ws) 0%R [] s1) as [[[t1 f1] s1']|];
    destruct (overlap_loop (w :: ws) 0%R [] s2) as [[[t2 f2] s2']|];
      simpl in A |- *; try contradiction; auto.
    destruct A as (E & K1 & K2). injection E as <- <-. auto.
Qed.

Lemma match_rows_agree (base : matcher) (u : uhr_row) (u_words : list string)
  (min_score : R) (rows : list mp_row) :
  forall s1 s2, cache_inv base s1 -> cache_inv base s2 ->
  agree base (match_rows u u_words rows min_score s1) (match_rows u u_words rows min_score s2).
Proof.
  induction rows as [|m rest IH]; intros s1 s2 H1 H2; simpl.
  - auto.
  - destruct (age_excluded _ _ _); [apply IH; assumption|].
    pose proof (score_text_overlap_agree base u_words (minus_stop (get_words (m_description m)))
                  s1 s2 H1 H2) as A.
    destruct (score_text_overlap u_words _ s1) as [[[t1 f1] s1']|];
    destruct (score_text_overlap u_words _ s2) as [[[t2 f2] s2']|];
      simpl in A; try contradiction; [|exact I].
    destruct A as (E & K1 & K2). injection E as <- <-.
    destruct (Rle_dec _ _); [|apply IH; assumption].
    destruct (u_description u), (m_description m); try exact I.
    pose proof (IH s1' s2' K1 K2) as B.
    destruct (match_rows u u_words rest min_score s1') as [[l1 r1]|];
    destruct (match_rows u u_words rest min_score s2') as [[l2 r2]|];
      simpl in B |- *; try contradiction; [|exact I].
    destruct B as (<- & B1 & B2). auto.
Qed.

Lemma match_subset_agree (base : matcher) (rows : list mp_row) (min_score : R)
  (subset : list processed_uhr) :
  forall s1 s2, cache_inv base s1 -> cache_inv base s2 ->
  agree base (match_subset subset rows min_score s1) (match_subset subset rows min_score s2).
Proof.
  induction subset as [|[u uw] rest IH]; intros s1 s2 H1 H2; simpl.
  - auto.
  - pose proof (match_rows_agree base u uw min_score (candidate_query u rows) s1 s2 H1 H2) as A.
    destruct (match_rows u uw (candidate_query u rows) min_score s1) as [[l1 r1]|];
    destruct (match_rows u uw (candidate_query u rows) min_score s2) as [[l2 r2]|];
      simpl in A; try contradiction; [|exact I].
    destruct A as (<- & K1 & K2).
    pose proof (IH r1 r2 K1 K2) as B.
    destruct (match_subset rest rows min_score r1) as [[m1 q1]|];
    destruct (match_subset rest rows min_score r2) as [[m2 q2]|];
      simpl in B |- *; try contradiction; [|exact I].
    destruct B as (<- & B1 & B2). auto.
Qed.

(** Running the loop over [l1 ++ l2] is running it over [l1], then over
    [l2] from the state it left. *)
Lemma match_subset_app (rows : list mp_row) (min_score : R) (l1 l2 : list processed_uhr) :
  forall s, match_subset (app l1 l2) rows min_score s =
    match match_subset l1 rows min_score s with
    | None => None
    | Some (ls1, s1) =>
        match match_subset l2 rows min_score s1 with
        | None => None
        | Some (ls2, s2) => Some (app ls1 ls2, s2)
        end
    end.
Proof.
  induction l1 as [|[u uw] rest IH]; intros s; simpl.
  - destruct (match_subset l2 rows min_score s) as [[ls s']|]; reflexivity.
  - destruct (match_rows u uw (candidate_query u rows) min_score s) as [[la sa]|]; [|reflexivity].
    rewrite IH.
    destruct (match_subset rest rows min_score sa) as [[lb sb]|]; [|reflexivity].
    destruct (match_subset l2 rows min_score sb) as [[lc sc]|]; [|reflexivity].
    rewrite app_assoc. reflexivity.
Qed.

(** One sequential run over the concatenated chunks returns what the
    workers, each started from the shared statistics, return in order. *)
Lemma match_subset_concat (db : database) (base : matcher) (min_score : R)
  (chunks : list (list processed_uhr)) :
  forall s, cache_inv base s ->
  option_map fst (match_subset (concat chunks) (missing_persons db) min_score s) =
  gather (map (fun chunk => match_chunk chunk db base min_score) chunks).
Proof.
  induction chunks as [|c cs IH]; intros s Hs; simpl.
  - reflexivity.
  - rewrite match_subset_app. unfold match_chunk.
    pose proof (match_subset_agree base (missing_persons db) min_score c s base Hs
                  (cache_inv_refl base)) as A.
    destruct (match_subset c (missing_persons db) min_score s) as [[l1 r1]|];
    destruct (match_subset c (missing_persons db) min_score base) as [[l2 r2]|];
      simpl in A |- *; try contradiction; [|reflexivity].
    destruct A as (<- & K1 & _).
    specialize (IH r1 K1). unfold match_chunk in IH. rewrite <- IH.
    destruct (match_subset (concat cs) (missing_persons db) min_score r1) as [[lb sb]|];
      reflexivity.
Qed.

(** The loop over [ws], from a state related to [base], fails exactly when
    a word of [ws] has no specificity; otherwise it adds the specificities
    of [ws] to the total and their features to the list. *)
Lemma overlap_loop_char (base : matcher) (ws : list string) :
  forall t f s, cache_inv base s ->
  match overlap_loop ws t f s with
  | None => forallb (spec_defined base) ws = false
  | Some (t', f', s') =>
      forallb (spec_defined base) ws = true /\ t' = (t + spec_sum base ws)%R /\
      f' = app f (spec_feats base ws) /\ cache_inv base s'
  end.
Proof.
  induction ws as [|w ws IH]; intros t f s Hs; cbn [overlap_loop].
  - split; [reflexivity|]. split; [unfold spec_sum; simpl; lra|].
    split; [symmetry; apply app_nil_r|exact Hs].
  - destruct (idf_lookup_inv base s w Hs) as [E K].
    assert (Hsum : spec_sum base (w :: ws) = (default 0 (spec_val base w) + spec_sum base ws)%R)
      by reflexivity.
    assert (Hfe : spec_feats base (w :: ws) =
      app (match spec_val base w with Some v => feature_of w v | None => [] end)
          (spec_feats base ws)) by reflexivity.
    assert (Hd : spec_defined base w = match spec_val base w with Some _ => true | None => false end)
      by reflexivity.
    cbn [forallb]. rewrite Hsum, Hfe, Hd.
    destruct (idf_lookup w s) as [[v s1]|] eqn:L; simpl in E; rewrite <- E.
    + assert (Hf : (if Rlt_dec 2.2 v then app f [String.append w " (Rare)"]
                    else if Rlt_dec 1.5 v then app f [w] else f) = app f (feature_of w v)).
      { unfold feature_of. destruct (Rlt_dec 2.2 v); [reflexivity|].
        destruct (Rlt_dec 1.5 v); [reflexivity|]. symmetry. apply app_nil_r. }
      rewrite Hf. pose proof (IH (t + v)%R (app f (feature_of w v)) s1 (K v s1 eq_refl)) as C.
      destruct (overlap_loop ws (t + v)%R (app f (feature_of w v)) s1) as [[[t' f'] s']|].
      * destruct C as (C1 & C2 & C3 & C4). simpl. rewrite C1.
        split; [reflexivity|]. split; [rewrite C2; simpl; lra|].
        split; [rewrite C3; symmetry; apply app_assoc|exact C4].
      * simpl. exact C.
    + reflexivity.
Qed.

Lemma forallb_perm {A} (p : A -> bool) (l1 l2 : list A) :
  Permutation l1 l2 -> forallb p l1 = forallb p l2.
Proof.
  induction 1 as [|x l1 l2 _ IH|x y l|l1 l2 l3 _ IH1 _ IH2]; simpl.
  - reflexivity.
  - rewrite IH. reflexivity.
  - destruct (p x), (p y); reflexivity.
  - congruence.
Qed.

Lemma spec_sum_perm (base : matcher) (l1 l2 : list string) :
  Permutation l1 l2 -> spec_sum base l1 = spec_sum base l2.
Proof.
  unfold spec_sum.
  induction 1 as [|x l1 l2 _ IH|x y l|l1 l2 l3 _ IH1 _ IH2]; cbn [fold_right].
  - reflexivity.
  - rewrite IH. reflexivity.
  - lra.
  - congruence.
Qed.

Lemma spec_feats_perm (base : matcher) (l1 l2 : list string) :
  Permutation l1 l2 -> Permutation (spec_feats base l1) (spec_feats base l2).
Proof. intros P. unfold spec_feats. rewrite P. reflexivity. Qed.

(** Two processes with different set orders compute the same text score
    and the same features up to their order. *)
Lemma score_text_overlap_ord_agree (base : matcher) (ord1 ord2 : set_order)
  (words1 words2 : list string) (s1 s2 : matcher) :
  set_order_ok ord1 -> set_order_ok ord2 -> cache_inv base s1 -> cache_inv base s2 ->
  agree_up_to (fun a b => fst a = fst b /\ Permutation (snd a) (snd b)) base
    (score_text_overlap_ord ord1 words1 words2 s1) (score_text_overlap_ord ord2 words1 words2 s2).
Proof.
  intros O1 O2 H1 H2. unfold score_text_overlap_ord. cbv zeta.
  pose proof (O1 words1 words2) as P1. pose proof (O2 words1 words2) as P2.
  revert P1 P2.
  destruct (ord1 words1 words2) as [|a1 l1]; destruct (ord2 words1 words2) as [|a2 l2];
    intros P1 P2.
  - simpl. auto.
  - apply Permutation_length in P1, P2. simpl in P1, P2. lia.
  - apply Permutation_length in P1, P2. simpl in P1, P2. lia.
  - assert (P : Permutation (a1 :: l1) (a2 :: l2)) by (rewrite P1, P2; reflexivity).
    pose proof (overlap_loop_char base (a1 :: l1) 0%R [] s1 H1) as C1.
    pose proof (overlap_loop_char base (a2 :: l2) 0%R [] s2 H2) as C2.
    rewrite (forallb_perm _ _ _ P) in C1.
    destruct (overlap_loop (a1 :: l1) 0%R [] s1) as [[[t1 f1] s1']|];
    destruct (overlap_loop (a2 :: l2) 0%R [] s2) as [[[t2 f2] s2']|].
    + destruct C1 as (_ & -> & -> & K1), C2 as (_ & -> & -> & K2).
      cbn [fst snd]. rewrite (spec_sum_perm _ _ _ P).
      split; [split; [reflexivity|apply spec_feats_perm, P]|auto].
    + destruct C1 as (C1 & _). congruence.
    + destruct C2 as (C2 & _). congruence.
    + exact I.
Qed.

Lemma match_rows_ord_agree (base : matcher) (ord1 ord2 : set_order) (u : uhr_row)
  (u_words : list string) (min_score : R) (rows : list mp_row) :
  set_order_ok ord1 -> set_order_ok ord2 ->
  forall s1 s2, cache_inv base s1 -> cache_inv base s2 ->
  agree_up_to (Forall2 lead_equiv) base
    (match_rows_ord ord1 u u_words rows min_score s1)
    (match_rows_ord ord2 u u_words rows min_score s2).
Proof.
  intros O1 O2. induction rows as [|m rest IH]; intros s1 s2 H1 H2; simpl.
  - auto.
  - destruct (age_excluded _ _ _); [apply IH; assumption|].
    pose proof (score_text_overlap_ord_agree base ord1 ord2 u_words
                  (minus_stop (get_words (m_description m))) s1 s2 O1 O2 H1 H2) as A.
    destruct (score_text_overlap_ord ord1 u_words _ s1) as [[[t1 f1] s1']|];
    destruct (score_text_overlap_ord ord2 u_words _ s2) as [[[t2 f2] s2']|];
      simpl in A; try contradiction; [|exact I].
    destruct A as ((<- & P) & K1 & K2).
    destruct (Rle_dec _ _); [|apply IH; assumption].
    destruct (u_description u), (m_description m); try exact I.
    pose proof (IH s1' s2' K1 K2) as B.
    destruct (match_rows_ord ord1 u u_words rest min_score s1') as [[l1 r1]|];
    destruct (match_rows_ord ord2 u u_words rest min_score s2') as [[l2 r2]|];
      simpl in B |- *; try contradiction; [|exact I].
    destruct B as (B & B1 & B2). split; [|auto].
    constructor; [|exact B].
    unfold lead_equiv; simpl. repeat split.
    destruct (haversine_distance _ _ _ _); [apply Permutation_app_tail|]; exact P.
Qed.

Lemma match_subset_ord_agree (base : matcher) (ord1 ord2 : set_order) (rows : list mp_row)
  (min_score : R) (subset : list processed_uhr) :
  set_order_ok ord1 -> set_order_ok ord2 ->
  forall s1 s2, cache_inv base s1 -> cache_inv base s2 ->
  agree_up_to (Forall2 lead_equiv) base
    (match_subset_ord ord1 subset rows min_score s1)
    (match_subset_ord ord2 subset rows min_score s2).
Proof.
  intros O1 O2. induction subset as [|[u uw] rest IH]; intros s1 s2 H1 H2; simpl.
  - auto.
  - pose proof (match_rows_ord_agree base ord1 ord2 u uw min_score (candidate_query u rows)
                  O1 O2 s1 s2 H1 H2) as A.
    destruct (match_rows_ord ord1 u uw (candidate_query u rows) min_score s1) as [[l1 r1]|];
    destruct (match_rows_ord ord2 u uw (candidate_query u rows) min_score s2) as [[l2 r2]|];
      simpl in A; try contradiction; [|exact I].
    destruct A as (F & K1 & K2).
    pose proof (IH r1 r2 K1 K2) as B.
    destruct (match_subset_ord ord1 rest rows min_score r1) as [[m1 q1]|];
    destruct (match_subset_ord ord2 rest rows min_score r2) as [[m2 q2]|];
      simpl in B |- *; try contradiction; [|exact I].
    destruct B as (G & B1 & B2). split; [apply Forall2_app; assumption|auto].
Qed.

Lemma match_subset_ord_app (ord : set_order) (rows : list mp_row) (min_score : R)
  (l1 l2 : list processed_uhr) :
  forall s, match_subset_ord ord (app l1 l2) rows min_score s =
    match match_subset_ord ord l1 rows min_score s with
    | None => None
    | Some (ls1, s1) =>
        match match_subset_ord ord l2 rows min_score s1 with
        | None => None
        | Some (ls2, s2) => Some (app ls1 ls2, s2)
        end
    end.
Proof.
  induction l1 as [|[u uw] rest IH]; intros s; simpl.
  - destruct (match_subset_ord ord l2 rows min_score s) as [[ls s']|]; reflexivity.
  - destruct (match_rows_ord ord u uw (candidate_query u rows) min_score s) as [[la sa]|];
      [|reflexivity].
    rewrite IH.
    destruct (match_subset_ord ord rest rows min_score sa) as [[lb sb]|]; [|reflexivity].
    destruct (match_subset_ord ord l2 rows min_score sb) as [[lc sc]|]; [|reflexivity].
    rewrite app_assoc. reflexivity.
Qed.

(** The workers, each started from the shared statistics with its own set
    order, return in order what one run over the concatenated chunks
    returns, up to [lead_equiv]. *)
Lemma match_subset_ord_concat (db : database) (base : matcher) (min_score : R)
  (ord : set_order) (pairs : list (set_order * list processed_uhr)) :
  set_order_ok ord -> Forall (fun oc => set_order_ok (fst oc)) pairs ->
  forall s, cache_inv base s ->
  leads_equiv (gather (map (fun oc => match_chunk_ord (fst oc) (snd oc) db base min_score) pairs))
    (option_map fst (match_subset_ord ord (concat (map snd pairs)) (missing_persons db) min_score s)).
Proof.
  intros Ho. induction pairs as [|[o c] ps IH]; intros HP s Hs; simpl.
  - constructor.
  - apply Forall_cons_1 in HP as [Hoc Hps]. simpl in Hoc.
    rewrite match_subset_ord_app. unfold match_chunk_ord.
    pose proof (match_subset_ord_agree base o ord (missing_persons db) min_score c Hoc Ho
                  base s (cache_inv_refl base) Hs) as A.
    destruct (match_subset_ord o c (missing_persons db) min_score base) as [[l1 r1]|];
    destruct (match_subset_ord ord c (missing_persons db) min_score s) as [[l2 r2]|];
      simpl in A |- *; try contradiction; [|exact I].
    destruct A as (F & _ & K2).
    specialize (IH Hps r2 K2). unfold match_chunk_ord in IH.
    destruct (gather _) as [lb|];
    destruct (match_subset_ord ord (concat (map snd ps)) (missing_persons db) min_score r2)
      as [[lb' sb]|]; simpl in IH |- *; try contradiction; [|exact I].
    apply Forall2_app; assumption.
Qed.

Lemma assign_orders_snd {A} (worker_ord : nat -> set_order) (i : nat) (chunks : list A) :
  map snd (assign_orders worker_ord i chunks) = chunks.
Proof.
  revert i. induction chunks as [|c cs IH]; intros i; simpl; [reflexivity|].
  rewrite IH. reflexivity.
Qed.

Lemma assign_orders_ok {A} (worker_ord : nat -> set_order) (i : nat) (chunks : list A) :
  (forall j, set_order_ok (worker_ord j)) ->
  Forall (fun oc => set_order_ok (fst oc)) (assign_orders worker_ord i chunks).
Proof.
  intros Hw. revert i. induction chunks as [|c cs IH]; intros i; simpl;
    [constructor|constructor; [apply Hw|apply IH]].
Qed.

Lemma insert_desc_equiv (x1 x2 : lead) (l1 l2 : list lead) :
  lead_equiv x1 x2 -> Forall2 lead_equiv l1 l2 ->
  Forall2 lead_equiv (insert_desc x1 l1) (insert_desc x2 l2).
Proof.
  intros Hx Hl. pose proof Hx as (_ & _ & _ & Sx & _).
  induction Hl as [|y1 y2 ys1 ys2 Hy Hys IH]; simpl.
  - constructor; [exact Hx|constructor].
  - pose proof Hy as (_ & _ & _ & Sy & _).
    rewrite <- Sx, <- Sy.
    destruct (Rge_dec (score y1) (score x1)).
    + constructor; assumption.
    + constructor; [exact Hx|]. constructor; assumption.
Qed.

Lemma sort_leads_equiv (l1 l2 : list lead) :
  Forall2 lead_equiv l1 l2 -> Forall2 lead_equiv (sort_leads l1) (sort_leads l2).
Proof.
  intros Hl. unfold sort_leads.
  assert (G : forall a1 a2, Forall2 lead_equiv a1 a2 ->
    Forall2 lead_equiv (fold_left (fun acc x => insert_desc x acc) l1 a1)
                       (fold_left (fun acc x => insert_desc x acc) l2 a2)).
  { induction Hl as [|x1 x2 xs1 xs2 Hx Hxs IH]; intros a1 a2 Ha; simpl; [exact Ha|].
    apply IH. apply insert_desc_equiv; assumption. }
  apply G. constructor.
Qed.



(* ================================================================== *)
(** * Further properties of the matching engine *)

(* ------------------------------------------------------------------ *)
(** ** Shape of the chunks *)

Lemma range_from_bounds (c fuel i stop j : nat) :
  In j (range_from fuel i stop c) -> i <= j < stop.
Proof.
  revert i. induction fuel as [|f IH]; intros i Hin; simpl in Hin; [contradiction|].
  destruct (Nat.ltb_spec i stop) as [Hlt|Hge]; [|contradiction].
  destruct Hin as [<-|Hin]; [lia|]. apply IH in Hin. lia.
Qed.

Lemma range_from_length (c fuel i stop : nat) :
  1 <= c -> stop - i <= fuel ->
  length (range_from fuel i stop c) = (stop - i + c - 1) / c.
Proof.
  intros Hc. revert i. induction fuel as [|f IH]; intros i Hf; simpl.
  - replace (stop - i) with 0 by lia. rewrite Nat.div_small by lia. reflexivity.
  - destruct (Nat.ltb_spec i stop) as [Hlt|Hge]; simpl.
    + rewrite IH by lia.
      destruct (Nat.le_gt_cases c (stop - i)) as [Hk|Hk].
      * replace (stop - i + c - 1) with ((stop - (i + c) + c - 1) + 1 * c) by lia.
        rewrite Nat.div_add by lia. lia.
      * replace (stop - (i + c) + c - 1) with (c - 1) by lia.
        replace (stop - i + c - 1) with ((stop - i - 1) + 1 * c) by lia.
        rewrite Nat.div_add by lia.
        rewrite !Nat.div_small by lia. reflexivity.
    + replace (stop - i) with 0 by lia. rewrite Nat.div_small by lia. reflexivity.
Qed.

(** [processed_uhr[i:i + chunk_size]] for [i] in [range(0, len, chunk_size)]:
    for a positive chunk size every chunk is non-empty and holds at most
    [chunk_size] records, and there are [ceil(len / chunk_size)] chunks. *)
Theorem make_chunks_shape {A} (l : list A) (c : nat) :
  1 <= c ->
  Forall (fun ch => 1 <= length ch <= c) (make_chunks l c) /\
  length (make_chunks l c) = (length l + c - 1) / c.
Proof.
  intros Hc. unfold make_chunks, py_range. split.
  - apply List.Forall_forall. intros ch Hin. apply in_map_iff in Hin as (j & <- & Hj).
    apply range_from_bounds in Hj. unfold py_slice.
    rewrite length_firstn, length_skipn. lia.
  - rewrite length_map, range_from_length by lia. f_equal. lia.
Qed.

Lemma make_chunks_shape_witness :
  1 <= 2 /\
  Forall (fun ch => 1 <= length ch <= 2) (make_chunks [1; 2; 3] 2) /\
  length (make_chunks [1; 2; 3] 2) = (length [1; 2; 3] + 2 - 1) / 2.
Proof. split; [lia|]. apply (make_chunks_shape [1; 2; 3] 2). lia. Defined.

(* ------------------------------------------------------------------ *)
(** ** Ranking of the leads *)




(** When every process iterates sets in the order of [words1], the leads
    of the parallel path are those of one sequential run. *)
Lemma find_leads_all_leads (self : matcher) (db : database) (min_score : R) (limit : nat)
  (parallel : bool) (cpu_count : option nat) :
  find_leads self db min_score limit parallel cpu_count =
  match match_chunk (map preprocess (unidentified_cases db)) db (load_stats self db) min_score with
  | None => None
  | Some ls => Some (firstn limit (sort_leads ls))
  end.
Proof.
  unfold find_leads. cbv zeta. destruct parallel; [|reflexivity].
  set (processed := map preprocess (unidentified_cases db)).
  set (self1 := load_stats self db).
  rewrite <- (match_subset_concat db self1 min_score
                (make_chunks processed (chunk_size (num_workers cpu_count) processed))
                self1 (cache_inv_refl self1)).
  rewrite concat_make_chunks by apply chunk_size_pos.
  reflexivity.
Qed.



(* ------------------------------------------------------------------ *)
(** ** [round(x, 3)] *)

Lemma rdiv_nonneg (a b : R) : (0 <= a)%R -> (0 < b)%R -> (0 <= a / b)%R.
Proof. intros Ha Hb. unfold Rdiv. apply Rmult_le_pos; [exact Ha|left; apply Rinv_0_lt_compat; exact Hb]. Qed.

Lemma round_half_even_close (x : R) : (Rabs (IZR (round_half_even x) - x) <= 1 / 2)%R.
Proof.
  unfold round_half_even.
  pose proof (base_fp x) as [F0 F1]. unfold frac_part in *.
  set (n := Int_part x) in *.
  destruct (Rlt_dec (x - IZR n) 0.5) as [Hlt|Hge].
  - apply Rabs_le. lra.
  - destruct (Rlt_dec 0.5 (x - IZR n)) as [Hgt|Hle].
    + rewrite plus_IZR. apply Rabs_le. lra.
    + destruct (Z.even n); [|rewrite plus_IZR]; apply Rabs_le; lra.
Qed.

(** The score of a lead, [round(final_score, 3)], is within 0.0005 of
    [final_score], and stays in [0, 1] when [final_score] does. *)
Theorem py_round3_spec (x : R) :
  (Rabs (py_round3 x - x) <= 1 / 2000)%R /\
  ((0 <= x <= 1)%R -> (0 <= py_round3 x <= 1)%R).
Proof.
  pose proof (round_half_even_close (x * 1000)) as H.
  unfold py_round3. set (r := round_half_even (x * 1000)) in *.
  assert (H1 : (IZR r - x * 1000 <= 1 / 2)%R)
    by (eapply Rle_trans; [apply Rle_abs|exact H]).
  assert (H2 : (- (IZR r - x * 1000) <= 1 / 2)%R)
    by (eapply Rle_trans; [apply Rle_abs|rewrite Rabs_Ropp; exact H]).
  clear H. split.
  - apply Rabs_le. split.
    + apply (Rmult_le_reg_r 1000); [lra|].
      replace ((IZR r / 1000 - x) * 1000)%R with (IZR r - x * 1000)%R by field. lra.
    + apply (Rmult_le_reg_r 1000); [lra|].
      replace ((IZR r / 1000 - x) * 1000)%R with (IZR r - x * 1000)%R by field. lra.
  - intros Hx.
    assert (L : (-1 < IZR r)%R) by lra.
    assert (U : (IZR r < 1001)%R) by lra.
    apply lt_IZR in L. apply lt_IZR in U.
    assert (L' : (0 <= IZR r)%R) by (apply IZR_le; lia).
    assert (U' : (IZR r <= 1000)%R) by (apply IZR_le; lia).
    split.
    + apply rdiv_nonneg; lra.
    + apply (Rmult_le_reg_r 1000); [lra|].
      replace (IZR r / 1000 * 1000)%R with (IZR r) by field. lra.
Qed.

(* ------------------------------------------------------------------ *)
(** ** [haversine_distance] and [calculate_geo_score] *)





(** The geographic score of a known distance decreases strictly with the
    distance and lies in (0, 1] for non-negative distances, with 1 at
    distance 0; an unknown distance scores 0.5. *)
Theorem geo_score_decreasing (d1 d2 : R) :
  (d1 < d2)%R -> (calculate_geo_score (Some d2) < calculate_geo_score (Some d1))%R /\
  ((0 <= d1)%R -> (0 < calculate_geo_score (Some d1) <= 1)%R) /\
  calculate_geo_score (Some 0%R) = 1%R.
Proof.
  intros Hlt. unfold calculate_geo_score. split; [|split].
  - apply exp_increasing. lra.
  - intros H0. split; [apply exp_pos|].
    rewrite <- exp_0. destruct (Req_dec d1 0) as [->|Hne].
    + right. f_equal. field.
    + left. apply exp_increasing. apply Ropp_lt_cancel.
      replace (- (- d1 / 300))%R with (d1 / 300)%R by field. lra.
  - replace (- 0 / 300)%R with 0%R by field. apply exp_0.
Qed.

Lemma geo_score_decreasing_witness :
  (0 < 1)%R /\ (calculate_geo_score (Some 1%R) < calculate_geo_score (Some 0%R))%R.
Proof. split; [lra|]. apply (geo_score_decreasing 0 1). lra. Defined.

(* ------------------------------------------------------------------ *)
(** ** Specificity and text score on consistent statistics *)

Lemma doc_count_le (w : string) (descs : list (option string)) :
  doc_count w descs <= length (List.filter truthy_str descs).
Proof.
  unfold doc_count. induction descs as [|d ds IH]; simpl; [lia|].
  destruct (truthy_str d); simpl; [|exact IH].
  destruct (bool_decide _); simpl; lia.
Qed.

Lemma load_stats_cache (self : matcher) (db : database) :
  idf_cache (load_stats self db) = idf_cache self.
Proof.
  unfold load_stats.
  destruct (count_docs (uhr_total self, uhr_df self) _) as [ut udf].
  destruct (count_docs (mp_total self, mp_df self) _) as [mt mdf].
  reflexivity.
Qed.

Lemma stats_ok_init : stats_ok init_matcher.
Proof.
  unfold stats_ok, init_matcher, df_get; simpl.
  repeat split; intros w; [rewrite lookup_empty; simpl; lia|rewrite lookup_empty; simpl; lia|].
  intros v Hv. rewrite lookup_empty in Hv. discriminate.
Qed.

Lemma load_stats_ok (self : matcher) (db : database) :
  stats_ok self -> stats_ok (load_stats self db).
Proof.
  intros (Hu & Hm & Hc). unfold stats_ok. repeat split.
  - intros w. unfold load_stats.
    pose proof (count_docs_df (map u_description (unidentified_cases db))
                  (uhr_total self) (uhr_df self) w) as [U1 U2].
    pose proof (doc_count_le w (map u_description (unidentified_cases db))).
    destruct (count_docs (uhr_total self, uhr_df self) _) as [ut udf].
    destruct (count_docs (mp_total self, mp_df self) _) as [mt mdf].
    simpl in *. specialize (Hu w). lia.
  - intros w. unfold load_stats.
    pose proof (count_docs_df (map m_description (missing_persons db))
                  (mp_total self) (mp_df self) w) as [M1 M2].
    pose proof (doc_count_le w (map m_description (missing_persons db))).
    destruct (count_docs (uhr_total self, uhr_df self) _) as [ut udf].
    destruct (count_docs (mp_total self, mp_df self) _) as [mt mdf].
    simpl in *. specialize (Hm w). lia.
  - intros w v. rewrite load_stats_cache. apply Hc.
Qed.

Lemma spec_nonneg_aux (word : string) (df : gmap string nat) (total_docs : nat) :
  df_get df word <= total_docs ->
  exists v, calculate_specificity word df total_docs = Some v /\ (0 <= v)%R.
Proof.
  intros Hle. unfold calculate_specificity.
  destruct (is_stop word); [exists 0%R; split; [reflexivity|lra]|].
  destruct (Nat.leb_spec (df_get df word) 0) as [H0|H0]; [exists 2.5%R; split; [reflexivity|lra]|].
  destruct (Nat.eqb_spec total_docs 0) as [Ht|Ht]; [lia|].
  eexists; split; [reflexivity|].
  unfold log10. apply rdiv_nonneg; [|apply ln10_pos].
  apply lt_0_INR in H0. apply le_INR in Hle.
  assert (G : (1 <= INR total_docs / INR (df_get df word))%R).
  { apply (Rmult_le_reg_r (INR (df_get df word))); [exact H0|].
    unfold Rdiv. rewrite Rmult_assoc, Rinv_l by lra. lra. }
  rewrite <- ln_1. destruct (Rle_lt_or_eq_dec 1 _ G) as [Glt|Geq].
  + left. apply ln_increasing; lra.
  + rewrite Geq. lra.
Qed.

(** When a word's document frequency does not exceed the corpus total (as
    [load_stats] guarantees), [calculate_specificity] does not raise and
    returns a non-negative value. *)
Theorem calculate_specificity_nonneg (word : string) (df : gmap string nat) (total_docs : nat) :
  df_get df word <= total_docs ->
  exists v, calculate_specificity word df total_docs = Some v /\ (0 <= v)%R.
Proof.
  apply spec_nonneg_aux.
Qed.

Lemma calculate_specificity_nonneg_witness :
  df_get (<["scar" := 1]> ∅) "scar" <= 4 /\
  exists v, calculate_specificity "scar" (<["scar" := 1]> ∅) 4 = Some v /\ (0 <= v)%R.
Proof.
  split; [vm_compute; lia|]. apply calculate_specificity_nonneg. vm_compute. lia.
Defined.

Lemma idf_lookup_ok (w : string) (s : matcher) :
  stats_ok s ->
  exists v s', idf_lookup w s = Some (v, s') /\ (0 <= v)%R /\ stats_ok s'.
Proof.
  intros Hs. pose proof Hs as (Hu & Hm & Hc). unfold idf_lookup.
  destruct (idf_cache s !! w) as [v|] eqn:Hw.
  - exists v, s. split; [reflexivity|]. split; [apply (Hc w v Hw)|exact Hs].
  - destruct (spec_nonneg_aux w (uhr_df s) (uhr_total s) (Hu w)) as (v1 & E1 & P1).
    destruct (spec_nonneg_aux w (mp_df s) (mp_total s) (Hm w)) as (v2 & E2 & P2).
    rewrite E1, E2. eexists _, _. split; [reflexivity|]. split; [lra|].
    unfold stats_ok; simpl. repeat split; [exact Hu|exact Hm|].
    intros w' v' Hw'. destruct (decide (w' = w)) as [->|Hne].
    + rewrite lookup_insert_eq in Hw'. injection Hw' as <-. lra.
    + rewrite lookup_insert_ne in Hw' by congruence. exact (Hc w' v' Hw').
Qed.

Lemma overlap_loop_ok (ws : list string) :
  forall total feats s, stats_ok s -> (0 <= total)%R ->
  exists t f s', overlap_loop ws total feats s = Some (t, f, s') /\
    (0 <= t)%R /\ stats_ok s'.
Proof.
  induction ws as [|w ws IH]; intros total feats s Hs Ht; simpl.
  - eexists _, _, _. split; [reflexivity|]. auto.
  - destruct (idf_lookup_ok w s Hs) as (v & s1 & E & Hv & Hs1). rewrite E.
    apply IH; [exact Hs1|lra].
Qed.

(** On consistent statistics [score_text_overlap] does not raise, its
    score lies in [0, 1], and the statistics stay consistent. *)
Theorem score_text_overlap_range (words1 words2 : list string) (s : matcher) :
  stats_ok s ->
  exists t f s', score_text_overlap words1 words2 s = Some ((t, f), s') /\
    (0 <= t <= 1)%R /\ stats_ok s'.
Proof.
  intros Hs. unfold score_text_overlap.
  destruct (List.filter _ words1) as [|w ws].
  - eexists _, _, _. split; [reflexivity|]. split; [lra|exact Hs].
  - destruct (overlap_loop_ok (w :: ws) 0%R [] s Hs (Rle_refl 0)) as (t & f & s' & E & Ht & Hs').
    rewrite E. eexists _, _, _. split; [reflexivity|]. split; [|exact Hs'].
    split; [|apply Rmin_l].
    apply Rmin_case; [lra|]. apply rdiv_nonneg; lra.
Qed.

Lemma score_text_overlap_range_witness :
  stats_ok init_matcher /\
  exists t f s', score_text_overlap ["scar"] ["scar"] init_matcher = Some ((t, f), s') /\
    (0 <= t <= 1)%R /\ stats_ok s'.
Proof. split; [exact stats_ok_init|]. apply score_text_overlap_range. exact stats_ok_init. Defined.

(* ------------------------------------------------------------------ *)
(** ** When [find_leads] raises *)

Lemma match_rows_ok (u : uhr_row) (u_words : list string) (min_score : R) (rows : list mp_row) :
  u_description u <> None -> Forall (fun m => m_description m <> None) rows ->
  forall s, stats_ok s ->
  exists ls s', match_rows u u_words rows min_score s = Some (ls, s') /\ stats_ok s'.
Proof.
  intros Hu. induction rows as [|m rest IH]; intros Hrows s Hs; simpl.
  - eauto.
  - apply Forall_cons_1 in Hrows as [Hm Hrest].
    destruct (age_excluded _ _ _); [apply IH; assumption|].
    destruct (score_text_overlap_range u_words (minus_stop (get_words (m_description m))) s Hs)
      as (t & f & s1 & E & _ & Hs1).
    rewrite E.
    destruct (Rle_dec _ _); [|apply IH; assumption].
    destruct (u_description u) as [ud|]; [|congruence].
    destruct (m_description m) as [md|]; [|congruence].
    destruct (IH Hrest s1 Hs1) as (ls & s' & E' & Hs'). rewrite E'. eauto.
Qed.

Lemma match_subset_ok (rows : list mp_row) (min_score : R) (subset : list processed_uhr) :
  Forall (fun p => u_description (fst p) <> None) subset ->
  Forall (fun m => m_description m <> None) rows ->
  forall s, stats_ok s ->
  exists ls s', match_subset subset rows min_score s = Some (ls, s') /\ stats_ok s'.
Proof.
  intros Hsub Hrows. induction subset as [|[u uw] rest IH]; intros s Hs; simpl.
  - eauto.
  - apply Forall_cons_1 in Hsub as [Hu Hrest]. simpl in Hu.
    assert (Hq : Forall (fun m => m_description m <> None) (candidate_query u rows)).
    { unfold candidate_query. apply List.Forall_forall. intros m Hm.
      apply filter_In in Hm as [Hm _]. rewrite List.Forall_forall in Hrows. auto. }
    destruct (match_rows_ok u uw min_score (candidate_query u rows) Hu Hq s Hs)
      as (l1 & s1 & E1 & Hs1).
    rewrite E1. destruct (IH Hrest s1 Hs1) as (l2 & s2 & E2 & Hs2). rewrite E2. eauto.
Qed.

(** [find_leads] raises only through a missing description: starting from
    consistent statistics (a fresh matcher has them), on a database where
    every description is present it returns a list of leads, on both
    paths. *)
Theorem find_leads_no_error (self : matcher) (db : database) (min_score : R) (limit : nat)
  (parallel : bool) (cpu_count : option nat) :
  stats_ok self ->
  Forall (fun u => u_description u <> None) (unidentified_cases db) ->
  Forall (fun m => m_description m <> None) (missing_persons db) ->
  exists out, find_leads self db min_score limit parallel cpu_count = Some out.
Proof.
  intros Hs Hu Hm. rewrite find_leads_all_leads. unfold match_chunk.
  assert (Hp : Forall (fun p => u_description (fst p) <> None)
                 (map preprocess (unidentified_cases db))).
  { apply Forall_map. unfold preprocess. simpl. exact Hu. }
  destruct (match_subset_ok (missing_persons db) min_score _ Hp Hm
              (load_stats self db) (load_stats_ok self db Hs)) as (ls & s' & E & _).
  rewrite E. simpl. eauto.
Qed.

Lemma find_leads_no_error_witness :
  stats_ok init_matcher /\
  Forall (fun u => u_description u <> None) (unidentified_cases db_sample) /\
  Forall (fun m => m_description m <> None) (missing_persons db_sample) /\
  exists out, find_leads init_matcher db_sample (35 / 100)%R 200 true None = Some out.
Proof.
  assert (Hu : Forall (fun u => u_description u <> None) (unidentified_cases db_sample))
    by (repeat constructor; discriminate).
  assert (Hm : Forall (fun m => m_description m <> None) (missing_persons db_sample))
    by (repeat constructor; discriminate).
  split; [exact stats_ok_init|]. split; [exact Hu|]. split; [exact Hm|].
  exact (find_leads_no_error init_matcher db_sample (35 / 100)%R 200 true None
           stats_ok_init Hu Hm).
Defined.

(* ------------------------------------------------------------------ *)
(** ** What a lead always satisfies *)

Lemma match_rows_sound (u : uhr_row) (u_words : list string) (min_score : R) (rows : list mp_row) :
  forall s ls s', match_rows u u_words rows min_score s = Some (ls, s') ->
  forall ld, In ld ls ->
  exists m final, In m rows /\ age_ok u m = true /\
    uhr_case ld = case_number u /\ mp_file ld = file_number m /\ lead_mp_name ld = mp_name m /\
    (min_score <= final <= 1)%R /\ score ld = py_round3 final.
Proof.
  induction rows as [|m rest IH]; intros s ls s' E ld Hin; simpl in E.
  - injection E as <- _. contradiction.
  - unfold age_ok at 1.
    destruct (age_excluded _ _ _) eqn:Hage.
    + destruct (IH s ls s' E ld Hin) as (m' & f & ? & ?). exists m', f. split; [right|]; tauto.
    + destruct (score_text_overlap _ _ s) as [[[t f] s1]|]; [|discriminate].
      destruct (Rle_dec _ _) as [Hmin|_].
      * destruct (u_description u) as [ud|], (m_description m) as [md|]; try discriminate.
        destruct (match_rows u u_words rest min_score s1) as [[ls1 s2]|] eqn:E1; [|discriminate].
        injection E as <- _. destruct Hin as [<-|Hin].
        -- eexists m, _. simpl. split; [left; reflexivity|].
           split; [rewrite Hage; reflexivity|]. repeat split; try reflexivity; [exact Hmin|].
           apply Rmin_l.
        -- destruct (IH s1 ls1 s2 E1 ld Hin) as (m' & f' & ? & ?).
           exists m', f'. split; [right|]; tauto.
      * destruct (IH s1 ls s' E ld Hin) as (m' & f' & ? & ?). exists m', f'. split; [right|]; tauto.
Qed.

Lemma match_subset_sound (rows : list mp_row) (min_score : R) (subset : list processed_uhr) :
  forall s ls s', match_subset subset rows min_score s = Some (ls, s') ->
  forall ld, In ld ls ->
  exists u uw m final, In (u, uw) subset /\ In m rows /\ selected u m = true /\
    age_ok u m = true /\
    uhr_case ld = case_number u /\ mp_file ld = file_number m /\ lead_mp_name ld = mp_name m /\
    (min_score <= final <= 1)%R /\ score ld = py_round3 final.
Proof.
  induction subset as [|[u uw] rest IH]; intros s ls s' E ld Hin; simpl in E.
  - injection E as <- _. contradiction.
  - destruct (match_rows u uw (candidate_query u rows) min_score s) as [[l1 s1]|] eqn:E1;
      [|discriminate].
    destruct (match_subset rest rows min_score s1) as [[l2 s2]|] eqn:E2; [|discriminate].
    injection E as <- _. apply in_app_or in Hin as [Hin|Hin].
    + destruct (match_rows_sound u uw min_score _ s l1 s1 E1 ld Hin) as (m & f & Hm & ?).
      unfold candidate_query in Hm. apply filter_In in Hm as [Hm Hsel].
      exists u, uw, m, f. split; [left; reflexivity|]. tauto.
    + destruct (IH s1 l2 s2 E2 ld Hin) as (u' & uw' & m & f & ? & ?).
      exists u', uw', m, f. split; [right|]; tauto.
Qed.

(** Every lead of [_match_chunk] pairs a record of the chunk with a
    missing-person row that the SQL query returns for it and that the age
    filter keeps; its identifiers and name come from these rows and its
    score is [round(final_score, 3)] of a final score between [min_score]
    and 1. *)
Theorem match_chunk_sound (uhr_subset : list processed_uhr) (db : database) (stats : matcher)
  (min_score : R) (ls : list lead) :
  match_chunk uhr_subset db stats min_score = Some ls ->
  forall ld, In ld ls ->
  exists u uw m final, In (u, uw) uhr_subset /\ In m (missing_persons db) /\
    selected u m = true /\ age_ok u m = true /\
    uhr_case ld = case_number u /\ mp_file ld = file_number m /\ lead_mp_name ld = mp_name m /\
    (min_score <= final <= 1)%R /\ score ld = py_round3 final.
Proof.
  unfold match_chunk. intros E.
  destruct (match_subset uhr_subset (missing_persons db) min_score stats) as [[l s']|] eqn:E1;
    [|discriminate].
  simpl in E. injection E as <-. exact (match_subset_sound _ _ _ stats l s' E1).
Qed.


(* ------------------------------------------------------------------ *)
(** ** Loading the statistics twice *)

Lemma load_stats_facts (self : matcher) (db : database) (w : string) :
  df_get (uhr_df (load_stats self db)) w =
    df_get (uhr_df self) w + doc_count w (map u_description (unidentified_cases db)) /\
  df_get (mp_df (load_stats self db)) w =
    df_get (mp_df self) w + doc_count w (map m_description (missing_persons db)) /\
  uhr_total (load_stats self db) =
    uhr_total self + length (List.filter truthy_str (map u_description (unidentified_cases db))) /\
  mp_total (load_stats self db) =
    mp_total self + length (List.filter truthy_str (map m_description (missing_persons db))).
Proof.
  unfold load_stats.
  pose proof (count_docs_df (map u_description (unidentified_cases db))
                (uhr_total self) (uhr_df self) w) as [U1 U2].
  pose proof (count_docs_df (map m_description (missing_persons db))
                (mp_total self) (mp_df self) w) as [M1 M2].
  destruct (count_docs (uhr_total self, uhr_df self) _) as [ut udf].
  destruct (count_docs (mp_total self, mp_df self) _) as [mt mdf].
  simpl in *. auto.
Qed.

Lemma calculate_specificity_scale (w : string) (df1 df2 : gmap string nat) (t1 t2 k : nat) :
  1 <= k -> df_get df2 w = k * df_get df1 w -> t2 = k * t1 ->
  calculate_specificity w df2 t2 = calculate_specificity w df1 t1.
Proof.
  intros Hk Hd Ht. unfold calculate_specificity. rewrite Hd, Ht.
  destruct (is_stop w); [reflexivity|].
  destruct (Nat.leb_spec (df_get df1 w) 0) as [H0|H0].
  - replace (k * df_get df1 w) with 0 by nia. reflexivity.
  - destruct (Nat.leb_spec (k * df_get df1 w) 0) as [H1|H1]; [nia|].
    destruct (Nat.eqb_spec t1 0) as [H2|H2].
    + subst t1. rewrite Nat.mul_0_r. reflexivity.
    + destruct (Nat.eqb_spec (k * t1) 0) as [H3|H3]; [nia|].
      f_equal. f_equal. rewrite !mult_INR.
      assert (INR k <> 0%R) by (apply not_0_INR; lia).
      assert (INR (df_get df1 w) <> 0%R) by (apply not_0_INR; lia).
      field. auto.
Qed.

(** Loading the same database a second time into the matcher (as a second
    [find_leads] call on the same object does) doubles every document
    frequency and both totals, and leaves the specificity of every word
    unchanged. *)
Theorem load_stats_twice (db : database) (w : string) :
  let m1 := load_stats init_matcher db in
  let m2 := load_stats m1 db in
  df_get (uhr_df m2) w = 2 * df_get (uhr_df m1) w /\
  df_get (mp_df m2) w = 2 * df_get (mp_df m1) w /\
  uhr_total m2 = 2 * uhr_total m1 /\ mp_total m2 = 2 * mp_total m1 /\
  calculate_specificity w (uhr_df m2) (uhr_total m2) =
    calculate_specificity w (uhr_df m1) (uhr_total m1) /\
  calculate_specificity w (mp_df m2) (mp_total m2) =
    calculate_specificity w (mp_df m1) (mp_total m1).
Proof.
  intros m1 m2.
  destruct (load_stats_facts init_matcher db w) as (A1 & A2 & A3 & A4).
  destruct (load_stats_facts m1 db w) as (B1 & B2 & B3 & B4).
  fold m1 in A1, A2, A3, A4. fold m2 in B1, B2, B3, B4.
  assert (Z0 : df_get (uhr_df init_matcher) w = 0 /\ df_get (mp_df init_matcher) w = 0)
    by (unfold df_get; simpl; rewrite lookup_empty; split; reflexivity).
  simpl in A3, A4. destruct Z0 as [Z1 Z2].
  assert (C1' : df_get (uhr_df m2) w = 2 * df_get (uhr_df m1) w) by lia.
  assert (C2' : df_get (mp_df m2) w = 2 * df_get (mp_df m1) w) by lia.
  assert (C3' : uhr_total m2 = 2 * uhr_total m1) by lia.
  assert (C4' : mp_total m2 = 2 * mp_total m1) by lia.
  repeat split; auto; apply (calculate_specificity_scale w _ _ _ _ 2); auto.
Qed.

(* ------------------------------------------------------------------ *)
(** ** Phenotypic score and text features *)

(** The phenotypic score is 1 when both races are present, non-empty and
    equal, and 0 otherwise: [min(1.0, 0.5 * 2)] leaves no other value. *)
Theorem phenotypic_score_values (u_race m_race : option string) :
  (calculate_phenotypic_score u_race m_race = 1%R /\
   exists a, u_race = Some a /\ m_race = Some a /\ a <> "") \/
  (calculate_phenotypic_score u_race m_race = 0%R /\
   ~ exists a, u_race = Some a /\ m_race = Some a /\ a <> "").
Proof.
  unfold calculate_phenotypic_score.
  destruct u_race as [a|]; [destruct m_race as [b|]|].
  - simpl. destruct (String.eqb_spec a "") as [Ea|Ea]; simpl.
    + right. split; [rewrite Rmult_0_l; apply Rmin_right; lra|].
      intros (x & Hx & _ & Hne). injection Hx as <-. contradiction.
    + destruct (String.eqb_spec b "") as [Eb|Eb]; simpl.
      * right. split; [rewrite Rmult_0_l; apply Rmin_right; lra|].
        intros (x & Hx & Hy & Hne). injection Hx as <-. injection Hy as <-. contradiction.
      * destruct (String.eqb_spec a b) as [Eab|Eab].
        -- left. split; [replace (0.5 * 2)%R with 1%R by lra; apply Rmin_left; lra|].
           exists a. subst b. auto.
        -- right. split; [rewrite Rmult_0_l; apply Rmin_right; lra|].
           intros (x & Hx & Hy & _). injection Hx as <-. injection Hy as <-. contradiction.
  - right. split; [rewrite Rmult_0_l; apply Rmin_right; lra|].
    intros (x & _ & Hy & _). discriminate.
  - right. split; [rewrite Rmult_0_l; apply Rmin_right; lra|].
    intros (x & Hx & _). discriminate.
Qed.

Lemma overlap_loop_features (ws : list string) :
  forall total feats s t f s', overlap_loop ws total feats s = Some (t, f, s') ->
  forall x, In x f -> In x feats \/ exists w, In w ws /\ (x = w \/ x = String.append w " (Rare)").
Proof.
  induction ws as [|w ws IH]; intros total feats s t f s' E x Hx; simpl in E.
  - injection E as _ <- _. left. exact Hx.
  - destruct (idf_lookup w s) as [[v s1]|]; [|discriminate].
    destruct (IH _ _ _ _ _ _ E x Hx) as [H|(w' & Hw' & Hx')].
    + destruct (Rlt_dec 2.2 v); [|destruct (Rlt_dec 1.5 v)];
        try (apply in_app_or in H as [H|[<-|[]]]; [left; exact H|]);
        try (left; exact H); right; exists w; split; auto; left; reflexivity.
    + right. exists w'. split; [right; exact Hw'|exact Hx'].
Qed.

(** Every feature reported by [score_text_overlap] is a word of both word
    sets, possibly tagged " (Rare)". *)
Theorem score_text_overlap_features (words1 words2 : list string) (s : matcher)
  (t : R) (f : list string) (s' : matcher) :
  score_text_overlap words1 words2 s = Some ((t, f), s') ->
  forall x, In x f ->
  exists w, In w words1 /\ In w words2 /\ (x = w \/ x = String.append w " (Rare)").
Proof.
  unfold score_text_overlap. intros E x Hx.
  destruct (List.filter (fun w => bool_decide (w ∈ words2)) words1) as [|c cs] eqn:Ec.
  - injection E as _ <- _. contradiction.
  - destruct (overlap_loop (c :: cs) 0%R [] s) as [[[t1 f1] s1]|] eqn:E1; [|discriminate].
    injection E as _ <- _.
    destruct (overlap_loop_features (c :: cs) 0%R [] s t1 f1 s1 E1 x Hx) as [[]|(w & Hw & Hxw)].
    rewrite <- Ec in Hw. apply filter_In in Hw as [Hw1 Hw2].
    apply bool_decide_eq_true in Hw2. apply list_elem_of_In in Hw2.
    exists w. auto.
Qed.

Lemma score_text_overlap_features_witness :
  exists t f s', score_text_overlap ["scar"] ["scar"] init_matcher = Some ((t, f), s') /\
  forall x, In x f ->
  exists w, In w ["scar"] /\ In w ["scar"] /\ (x = w \/ x = String.append w " (Rare)").
Proof.
  destruct (score_text_overlap ["scar"] ["scar"] init_matcher) as [[[t f] s']|] eqn:E.
  - exists t, f, s'. split; [reflexivity|].
    exact (score_text_overlap_features ["scar"] ["scar"] init_matcher t f s' E).
  - vm_compute in E. discriminate.
Defined.

(* ------------------------------------------------------------------ *)
(** ** C1: one pair, two set orders *)

Lemma combine_nonneg (t g p k : R) :
  (0 <= t)%R -> (0 <= g)%R -> (0 <= p)%R -> (0 <= k)%R -> (0 <= combine t g p k)%R.
Proof.
  intros Ht Hg Hp Hk. unfold combine. apply Rmin_case; [lra|].
  apply Rmult_le_pos; [lra|exact Hk].
Qed.

Lemma geo_score_nonneg (d : option R) : (0 <= calculate_geo_score d)%R.
Proof.
  destruct d as [d|]; simpl; [left; apply exp_pos|lra].
Qed.

Lemma pheno_score_nonneg (a b : option string) : (0 <= calculate_phenotypic_score a b)%R.
Proof.
  unfold calculate_phenotypic_score. apply Rmin_case; [lra|].
  destruct a, b; try lra.
  destruct (truthy_str _ && truthy_str _); [|lra].
  destruct (String.eqb _ _); lra.
Qed.

Lemma bio_multiplier_nonneg (a b c d : option string) :
  (0 <= calculate_bio_multiplier a b c d)%R.
Proof. unfold calculate_bio_multiplier. destruct (_ || _); lra. Qed.

(** One missing-person row with both descriptions present, on consistent
    statistics and with a threshold of at most 0, gives one lead; its text
    features are those of the common words in the order [ord] gives. *)
Lemma match_rows_ord_one (ord : set_order) (u : uhr_row) (u_words : list string)
  (m : mp_row) (min_score : R) (s : matcher) (ud md : string) :
  u_description u = Some ud -> m_description m = Some md -> age_ok u m = true ->
  stats_ok s -> (min_score <= 0)%R ->
  exists final s',
    match_rows_ord ord u u_words [m] min_score s =
    Some ([mk_lead (case_number u) (file_number m) (mp_name m) (py_round3 final)
             (app (spec_feats s (ord u_words (minus_stop (get_words (m_description m)))))
                  (match haversine_distance (discovery_lat u) (discovery_lon u)
                           (last_seen_lat m) (last_seen_lon m) with
                   | Some d => [miles_away d]
                   | None => []
                   end))
             (preview ud) (preview md)], s').
Proof.
  intros Hu Hm Hage Hs Hmin. unfold age_ok in Hage. apply negb_true_iff in Hage.
  cbn [match_rows_ord]. rewrite Hage.
  assert (T : exists t s1, score_text_overlap_ord ord u_words
                (minus_stop (get_words (m_description m))) s =
              Some ((t, spec_feats s (ord u_words (minus_stop (get_words (m_description m))))), s1)
              /\ (0 <= t)%R).
  { unfold score_text_overlap_ord. cbv zeta.
    destruct (ord u_words _) as [|w ws].
    - exists 0%R, s. split; [reflexivity|lra].
    - pose proof (overlap_loop_char s (w :: ws) 0%R [] s (cache_inv_refl s)) as C.
      destruct (overlap_loop_ok (w :: ws) 0%R [] s Hs (Rle_refl 0)) as (t & f & s1 & E & Ht & _).
      rewrite E in C |- *. destruct C as (_ & _ & -> & _).
      exists (Rmin 1 (t / 35)), s1. split; [reflexivity|].
      apply Rmin_case; [lra|apply rdiv_nonneg; lra]. }
  destruct T as (t & s1 & -> & Ht).
  match goal with |- context [Rle_dec min_score ?f] =>
    assert (Hf : (0 <= f)%R) by
      (apply combine_nonneg; [exact Ht|apply geo_score_nonneg|apply pheno_score_nonneg|
                               apply bio_multiplier_nonneg]);
    destruct (Rle_dec min_score f) as [_|Hn]; [|exfalso; apply Hn; lra]
  end.
  rewrite Hu, Hm. cbn [match_rows_ord].
  destruct (haversine_distance _ _ _ _); eexists _, s1; rewrite ?app_nil_r; reflexivity.
Qed.

Lemma make_chunks_one {A} (x : A) (c : nat) : 1 <= c -> make_chunks [x] c = [[x]].
Proof.
  intros Hc. destruct c as [|[|c]]; [lia|reflexivity|reflexivity].
Qed.

(** A chunk of one described record, against one described missing person
    that the query and the age filter pair with it, gives one lead. *)
Lemma match_chunk_ord_one (ord : set_order) (u : uhr_row) (m : mp_row) (db : database)
  (stats : matcher) (min_score : R) (ud md : string) :
  missing_persons db = [m] ->
  u_description u = Some ud -> m_description m = Some md ->
  selected u m = true -> age_ok u m = true -> stats_ok stats -> (min_score <= 0)%R ->
  exists final,
    match_chunk_ord ord [preprocess u] db stats min_score =
    Some [mk_lead (case_number u) (file_number m) (mp_name m) (py_round3 final)
            (app (spec_feats stats (ord (snd (preprocess u)) (minus_stop (get_words (m_description m)))))
                 (match haversine_distance (discovery_lat u) (discovery_lon u)
                          (last_seen_lat m) (last_seen_lon m) with
                  | Some d => [miles_away d]
                  | None => []
                  end))
            (preview ud) (preview md)].
Proof.
  intros Hdb Hu Hm Hsel Hage Hst Hmin.
  assert (Hq : candidate_query u [m] = [m]) by (unfold candidate_query; simpl; rewrite Hsel; reflexivity).
  unfold match_chunk_ord, preprocess. rewrite Hdb. cbn [match_subset_ord snd].
  rewrite Hq.
  destruct (match_rows_ord_one ord u (minus_stop (get_words (u_description u))) m min_score
              stats ud md Hu Hm Hage Hst Hmin) as (final & s' & E).
  rewrite E. exists final. reflexivity.
Qed.

(** A database of one unidentified record and one missing person, both
    described, that the query and the age filter pair: [find_leads] gives
    one lead on either path, whose text features come in the set order of
    the process that scored the pair. *)
Lemma find_leads_ord_one (main_ord : set_order) (worker_ord : nat -> set_order)
  (self : matcher) (u : uhr_row) (m : mp_row) (min_score : R) (limit : nat)
  (parallel : bool) (cpu_count : option nat) (ud md : string) :
  u_description u = Some ud -> m_description m = Some md ->
  selected u m = true -> age_ok u m = true ->
  stats_ok self -> (min_score <= 0)%R -> 1 <= limit ->
  exists final,
    find_leads_ord main_ord worker_ord self (mk_database [u] [m]) min_score limit parallel
      cpu_count =
    Some [mk_lead (case_number u) (file_number m) (mp_name m) (py_round3 final)
            (app (spec_feats (load_stats self (mk_database [u] [m]))
                    ((if parallel then worker_ord 0 else main_ord)
                       (snd (preprocess u)) (minus_stop (get_words (m_description m)))))
                 (match haversine_distance (discovery_lat u) (discovery_lon u)
                          (last_seen_lat m) (last_seen_lon m) with
                  | Some d => [miles_away d]
                  | None => []
                  end))
            (preview ud) (preview md)].
Proof.
  intros Hu Hm Hsel Hage Hs Hmin Hl.
  set (db := mk_database [u] [m]).
  set (stats := load_stats self db).
  assert (Hst : stats_ok stats) by (apply load_stats_ok; exact Hs).
  pose proof (fun ord => match_chunk_ord_one ord u m db stats min_score ud md eq_refl
                Hu Hm Hsel Hage Hst Hmin) as Hc.
  unfold find_leads_ord, collect_leads_ord. fold stats. cbv zeta.
  assert (Hp : map preprocess (unidentified_cases db) = [preprocess u]) by reflexivity.
  rewrite Hp.
  destruct parallel.
  - rewrite make_chunks_one by apply chunk_size_pos.
    destruct (Hc (worker_ord 0)) as (final & E).
    exists final. cbn [assign_orders map fst snd gather]. rewrite E.
    destruct limit as [|[|limit]]; [lia|reflexivity|reflexivity].
  - destruct (Hc main_ord) as (final & E).
    exists final. rewrite E.
    destruct limit as [|[|limit]]; [lia|reflexivity|reflexivity].
Qed.

(** C1 as stated: on the same database, matcher and threshold, the
    parallel and the sequential path produce the same set of leads. With
    a cache giving "nike" and "hoodie" the specificity 3, the one lead has
    the features ["nike (Rare)"; "hoodie (Rare)"] in the main process and
    ["hoodie (Rare)"; "nike (Rare)"] in a worker that iterates the set the
    other way round. *)
Lemma find_leads_lead_sets_differ :
  ~ (forall (main_ord : set_order) (worker_ord : nat -> set_order) (self : matcher)
       (db : database) (min_score : R) (limit : nat) (cpu_count : option nat)
       (l1 l2 : list lead),
       set_order_ok main_ord -> (forall i, set_order_ok (worker_ord i)) ->
       find_leads_ord main_ord worker_ord self db min_score limit true cpu_count = Some l1 ->
       find_leads_ord main_ord worker_ord self db min_score limit false cpu_count = Some l2 ->
       forall ld, In ld l1 <-> In ld l2).
Proof.
  intros H.
  assert (Hs : stats_ok matcher_cached).
  { unfold stats_ok, matcher_cached, df_get; simpl.
    split; [intros w; rewrite lookup_empty; simpl; lia|].
    split; [intros w; rewrite lookup_empty; simpl; lia|]. intros w v Hw.
    destruct (decide (w = "nike")) as [->|Hn].
    - rewrite lookup_insert_eq in Hw. injection Hw as <-. lra.
    - rewrite lookup_insert_ne in Hw by congruence.
      destruct (decide (w = "hoodie")) as [->|Hh].
      + rewrite lookup_insert_eq in Hw. injection Hw as <-. lra.
      + rewrite lookup_insert_ne, lookup_empty in Hw by congruence. discriminate. }
  assert (Hsel : selected uhr_nike mp_nike = true) by (vm_compute; reflexivity).
  assert (Ho1 : set_order_ok py_set_and) by (intros w1 w2; reflexivity).
  assert (Ho2 : forall i : nat, set_order_ok ((fun _ => reversed_order) i)).
  { intros i w1 w2. unfold reversed_order. symmetry. apply Permutation_rev. }
  destruct (find_leads_ord_one py_set_and (fun _ => reversed_order) matcher_cached uhr_nike
              mp_nike 0%R 1 true None "nike hoodie" "nike hoodie" eq_refl eq_refl Hsel eq_refl
              Hs (Rle_refl 0) (le_n 1)) as (f1 & E1).
  destruct (find_leads_ord_one py_set_and (fun _ => reversed_order) matcher_cached uhr_nike
              mp_nike 0%R 1 false None "nike hoodie" "nike hoodie" eq_refl eq_refl Hsel eq_refl
              Hs (Rle_refl 0) (le_n 1)) as (f2 & E2).
  pose proof (proj1 (H _ _ _ _ _ _ _ _ _ Ho1 Ho2 E1 E2 _) (or_introl eq_refl)) as Hin.
  destruct Hin as [Heq|[]].
  apply (f_equal shared_features) in Heq. cbn [shared_features] in Heq. cbv beta iota in Heq.
  assert (Ew : py_set_and (snd (preprocess uhr_nike)) (minus_stop (get_words (m_description mp_nike)))
               = ["nike"; "hoodie"]) by (vm_compute; reflexivity).
  assert (Hd : haversine_distance (discovery_lat uhr_nike) (discovery_lon uhr_nike)
                 (last_seen_lat mp_nike) (last_seen_lon mp_nike) = None) by reflexivity.
  unfold reversed_order in Heq. rewrite Ew, Hd in Heq.
  assert (Sv : forall w, w = "nike" \/ w = "hoodie" ->
    spec_val (load_stats matcher_cached (mk_database [uhr_nike] [mp_nike])) w = Some 3%R).
  { intros w Hw. unfold spec_val. rewrite load_stats_cache. unfold matcher_cached; simpl.
    destruct Hw as [->| ->]; [rewrite lookup_insert_eq; reflexivity|].
    rewrite lookup_insert_ne by discriminate. rewrite lookup_insert_eq. reflexivity. }
  assert (F3 : forall w, feature_of w 3%R = [String.append w " (Rare)"]).
  { intros w. unfold feature_of. destruct (Rlt_dec 2.2 3); [reflexivity|lra]. }
  unfold spec_feats in Heq. cbn [rev app flat_map] in Heq.
  rewrite (Sv "nike"), (Sv "hoodie"), !F3 in Heq by auto.
  cbn [app] in Heq. injection Heq as Ha _. vm_compute in Ha. discriminate Ha.
Qed.

(** C1 (amended): whatever order each process iterates the common words
    in, the parallel and the sequential path both raise, or both return
    the same number of leads, position by position for the same pair of
    records, with the same name, score and previews, and the same
    [shared_features] up to their order. *)
Theorem find_leads_parallel_sequential (main_ord : set_order) (worker_ord : nat -> set_order)
  (self : matcher) (db : database) (min_score : R) (limit : nat) (cpu_count : option nat) :
  set_order_ok main_ord -> (forall i, set_order_ok (worker_ord i)) ->
  leads_equiv (find_leads_ord main_ord worker_ord self db min_score limit true cpu_count)
              (find_leads_ord main_ord worker_ord self db min_score limit false cpu_count).
Proof.
  intros Hm Hw. unfold find_leads_ord, collect_leads_ord. cbv zeta.
  set (processed := map preprocess (unidentified_cases db)).
  set (self1 := load_stats self db).
  set (pairs := assign_orders worker_ord 0
                  (make_chunks processed (chunk_size (num_workers cpu_count) processed))).
  pose proof (match_subset_ord_concat db self1 min_score main_ord pairs Hm
                (assign_orders_ok worker_ord 0 _ Hw) self1 (cache_inv_refl self1)) as C.
  unfold pairs in C. rewrite assign_orders_snd, concat_make_chunks in C by apply chunk_size_pos.
  fold pairs in C. unfold match_chunk_ord at 2.
  destruct (gather _) as [lp|]; destruct (option_map fst _) as [ls|];
    simpl in C |- *; try contradiction; [|exact I].
  apply Forall2_take, sort_leads_equiv, C.
Qed.

Lemma find_leads_parallel_sequential_witness :
  set_order_ok py_set_and /\ (forall i : nat, set_order_ok ((fun _ => py_set_and) i)) /\
  leads_equiv (find_leads_ord py_set_and (fun _ => py_set_and) init_matcher db_sample
                 (35 / 100)%R 200 true None)
              (find_leads_ord py_set_and (fun _ => py_set_and) init_matcher db_sample
                 (35 / 100)%R 200 false None).
Proof.
  assert (Ho : set_order_ok py_set_and) by (intros w1 w2; reflexivity).
  split; [exact Ho|]. split; [intros i; exact Ho|].
  exact (find_leads_parallel_sequential py_set_and (fun _ => py_set_and) init_matcher db_sample
           (35 / 100)%R 200 None Ho (fun _ => Ho)).
Defined.

(* ------------------------------------------------------------------ *)
(** ** Leads on the sample database *)

(** [score_text_overlap] and [_match_chunk] above are those of a process
    that iterates [words1 & words2] in the order of [words1]. *)
Lemma match_rows_set_and (u : uhr_row) (u_words : list string) (rows : list mp_row)
  (min_score : R) :
  forall s, match_rows u u_words rows min_score s =
            match_rows_ord py_set_and u u_words rows min_score s.
Proof.
  induction rows as [|m rest IH]; intros s; simpl; [reflexivity|].
  change (score_text_overlap_ord py_set_and u_words (minus_stop (get_words (m_description m))) s)
    with (score_text_overlap u_words (minus_stop (get_words (m_description m))) s).
  destruct (age_excluded _ _ _); [apply IH|].
  destruct (score_text_overlap _ _ s) as [[[t f] s1]|]; [|reflexivity].
  destruct (Rle_dec _ _); [|apply IH].
  destruct (u_description u), (m_description m); try reflexivity.
  rewrite IH. reflexivity.
Qed.

Lemma match_chunk_set_and (uhr_subset : list processed_uhr) (db : database) (stats : matcher)
  (min_score : R) :
  match_chunk uhr_subset db stats min_score = match_chunk_ord py_set_and uhr_subset db stats min_score.
Proof.
  unfold match_chunk, match_chunk_ord. f_equal. generalize stats.
  induction uhr_subset as [|[u uw] rest IH]; intros s; simpl; [reflexivity|].
  rewrite match_rows_set_and.
  destruct (match_rows_ord _ _ _ _ _ s) as [[l1 s1]|]; [|reflexivity].
  rewrite IH. reflexivity.
Qed.

Lemma sample_pair_facts :
  selected uhr_sample mp_sample = true /\ age_ok uhr_sample mp_sample = true.
Proof. split; vm_compute; reflexivity. Qed.


Lemma match_chunk_sound_witness :
  exists ls,
    match_chunk [preprocess uhr_sample] db_sample init_matcher 0%R = Some ls /\ ls <> [] /\
    (forall ld, In ld ls ->
     exists u uw m final, In (u, uw) [preprocess uhr_sample] /\ In m (missing_persons db_sample) /\
       selected u m = true /\ age_ok u m = true /\
       uhr_case ld = case_number u /\ mp_file ld = file_number m /\ lead_mp_name ld = mp_name m /\
       (0 <= final <= 1)%R /\ score ld = py_round3 final).
Proof.
  destruct sample_pair_facts as [Hsel Hage].
  destruct (match_chunk_ord_one py_set_and uhr_sample mp_sample db_sample init_matcher 0%R _ _
              eq_refl eq_refl eq_refl Hsel Hage stats_ok_init (Rle_refl 0)) as (final & E).
  rewrite <- match_chunk_set_and in E.
  eexists. split; [exact E|]. split; [discriminate|].
  exact (match_chunk_sound [preprocess uhr_sample] db_sample init_matcher 0%R _ E).
Defined.
